(** * addcache: an in-memory key/value cache with expiry and hooks

    A shallow embedding of the Go package [addcache] and the properties of
    its operations.

    Modelling conventions.
    - [map[string]storageData] and [map[OperationType][]HandlerFunc] are
      stdpp finite maps ([gmap]) keyed by strings.
    - A stored value ([any]) is an element of an arbitrary type [V].
    - A [HandlerFunc] is a Go closure called for its effect.  It is a
      function that transforms the part of the program state outside the
      cache, of an arbitrary type [W]; the handlers of this model do not call
      back into the cache they are registered on.
    - A [[]HandlerFunc] is a list.  The slice that a call of [SetHook]
      passes is taken to be its own and to have no spare capacity, as the
      slice of a call with listed handlers is; slices that share a backing
      array are not modelled.
    - [time.Time] is the wall clock in nanoseconds since the Unix epoch and
      [time.Duration] a number of nanoseconds, both in [Z]; every call of
      [time.Now()] in the source is an explicit argument [now].  A reading
      of the clock plus an [int64] duration is within the range of
      [time.Time], so [Add] is the sum.
    - The methods run one at a time on a [process] state (the [storage]
      struct and the outside world) in a state monad [M].  The goroutine and
      the channel of [cleanupLoop]/[StopCleanup] are the transition system of
      module [Sweeper]. *)

From stdpp Require Import gmap strings list.

Local Open Scope Z_scope.

(** ** Package [time] *)

Module time.
(** Nanoseconds since January 1, 1970 UTC. *)
Definition Time : Type := Z.
(** Nanoseconds. *)
Definition Duration : Type := Z.

Definition Nanosecond : Duration := 1.
Definition Millisecond : Duration := 1000000.
Definition Second : Duration := 1000000000.

(** [t.Add(d)] *)
Definition Add (t : Time) (d : Duration) : Time := t + d.

(** [t.Unix()]: the number of whole seconds elapsed since the epoch
    (rounded down, also before 1970). *)
Definition Unix (t : Time) : Z := t `div` Second.
End time.

(** ** Package [strings] *)

Module strings.
(** [strings.Join(elems, sep)], as the Go library writes it: the empty
    string for no element, the element itself for one, and otherwise the
    first element followed by [sep] and an element for each of the
    others. *)
Definition Join (elems : list string) (sep : string) : string :=
  match elems with
  | [] => ""
  | [e] => e
  | e :: rest => foldl (λ b s, b +:+ sep +:+ s) e rest
  end.
End strings.

(** ** Package [addcache] *)

(** [type OperationType string] *)
Abbreviation OperationType := string (only parsing).

Definition defaultDelimiter : string := ":".
Definition defaultCleanup : time.Duration := 30 * time.Second.

Definition DeleteOperation : OperationType := "Delete".
Definition CreateOperation : OperationType := "Create".

Inductive error : Set := ErrCacheKeyNotFound.

Section Storage.
Context {V W : Type}.

(** [type HandlerFunc func(key string, data any)] *)
Definition HandlerFunc : Type := string → V → W → W.

(** [type storageData struct]; [sdData] is its field [data]. *)
Record storageData : Type := StorageData {
  isPersistence : bool;
  setTime : time.Time;
  expireDuration : time.Duration;
  sdData : V
}.

(** [type storage struct], without [stop], [wg] and [mu] (see [Sweeper]). *)
Record storage : Type := Storage {
  data : gmap string storageData;
  hooks : gmap OperationType (list HandlerFunc)
}.

(** The state a method runs on: the receiver [s] and the world its
    handlers act on. *)
Record process : Type := Process {
  heap : storage;
  world : W
}.

(** *** The state monad of the methods *)

Definition M (A : Type) : Type := process → A * process.

#[local] Instance M_ret : MRet M := λ A a σ, (a, σ).
#[local] Instance M_bind : MBind M := λ A B f m σ, let '(a, σ') := m σ in f a σ'.

(** [s.data] and [s.hooks], read and written. *)
Definition getData : M (gmap string storageData) := λ σ, (data (heap σ), σ).
Definition putData (m : gmap string storageData) : M () :=
  λ σ, ((), Process (Storage m (hooks (heap σ))) (world σ)).
Definition getHooks : M (gmap OperationType (list HandlerFunc)) :=
  λ σ, (hooks (heap σ), σ).
Definition putHooks (hs : gmap OperationType (list HandlerFunc)) : M () :=
  λ σ, ((), Process (Storage (data (heap σ)) hs) (world σ)).

(** [handlerFunction(key, data)] *)
Definition call (h : HandlerFunc) (key : string) (d : V) : M () :=
  λ σ, ((), Process (heap σ) (h key d (world σ))).

(** [for _, x := range xs { body }] over a slice. *)
Fixpoint forRange {A : Type} (xs : list A) (body : A → M ()) : M () :=
  match xs with
  | [] => mret ()
  | x :: xs' => body x ;; forRange xs' body
  end.

(** *** Methods *)

Definition processHooks (operationType : OperationType) (key : string) (d : V) : M () :=
  hs ← getHooks;
  match hs !! operationType with
  | Some handlerFunctions =>
      forRange handlerFunctions (λ handlerFunction, call handlerFunction key d)
  | None => mret ()
  end.

(** The method [Set] ([Set] itself is a sort of Rocq). *)
Definition Set_ (key : string) (d : V) (now : time.Time) : M () :=
  m ← getData;
  putData (<[key := StorageData true now 0 d]> m) ;;
  processHooks CreateOperation key d.

Definition SetEx (key : string) (d : V) (duration : time.Duration)
    (now : time.Time) : M () :=
  m ← getData;
  putData (<[key := StorageData false now duration d]> m) ;;
  processHooks CreateOperation key d.

Definition Delete (key : string) : M () :=
  m ← getData;
  match m !! key with
  | Some sd =>
      putData (delete key m) ;;
      processHooks DeleteOperation key (sdData sd)
  | None => mret ()
  end.

Definition removeIfExpired (key : string) (sd : storageData)
    (now : time.Time) : M bool :=
  if isPersistence sd then mret false
  else if time.Unix (time.Add (setTime sd) (expireDuration sd)) <=? time.Unix now
  then Delete key ;; mret true
  else mret false.

Definition Get (key : string) (now : time.Time) : M (V + error) :=
  m ← getData;
  match m !! key with
  | Some value =>
      gone ← removeIfExpired key value now;
      if (gone : bool) then mret (inr ErrCacheKeyNotFound)
      else mret (inl (sdData value))
  | None => mret (inr ErrCacheKeyNotFound)
  end.

Definition CreateKeyWithDelimiter (delimiter : string) (args : list string) : M string :=
  mret (strings.Join args delimiter).

Definition CreateKey (args : list string) : M string :=
  CreateKeyWithDelimiter defaultDelimiter args.

(** In the branch of a kind that is already in [s.hooks] the loop appends
    to the local slice header [handlers]; the method ends without storing
    it, so [s.hooks] keeps the header (and the length) it had. *)
Definition SetHook (operationType : OperationType)
    (handlerFunctions : list HandlerFunc) : M () :=
  hs ← getHooks;
  match hs !! operationType with
  | Some handlers =>
      let handlers' :=
        foldl (λ handlers handlerFunction, handlers ++ [handlerFunction])
              handlers handlerFunctions in
      mret ()
  | None => putHooks (<[operationType := handlerFunctions]> hs)
  end.

(** One tick of [cleanupLoop]: [for key, sd := range s.data] reaches the
    keys in an unspecified order and reads the clock at each of them;
    [visits] lists the keys in the order the loop reaches them, each with
    the clock reading of its [removeIfExpired].  The loop yields the entry
    a key has when it is reached, and no entry for a key that has none. *)
Definition cleanupTick (visits : list (string * time.Time)) : M () :=
  forRange visits (λ '(key, now),
    m ← getData;
    match m !! key with
    | Some sd => removeIfExpired key sd now ;; mret ()
    | None => mret ()
    end).

(** The [storage] that [NewCacheWithCleanup] makes: both maps are empty.
    The goroutine it starts is [Sweeper.boot]; a tick can come at any time,
    so the interval decides nothing here. *)
Definition NewCacheWithCleanup (cleanupInterval : time.Duration) (w : W) : process :=
  Process (Storage ∅ ∅) w.

Definition NewCache (w : W) : process := NewCacheWithCleanup defaultCleanup w.
End Storage.

Arguments storageData : clear implicits.
Arguments storage : clear implicits.
Arguments process : clear implicits.
Arguments HandlerFunc : clear implicits.
Arguments M : clear implicits.

(** ** Runs of method calls and sweep ticks *)

Section Runs.
Context {V W : Type}.

(** What can happen to a cache, one after the other: a call of a method
    with the clock readings it makes, or a tick of the sweep. *)
Inductive op : Type :=
| OpSet (key : string) (d : V) (now : time.Time)
| OpSetEx (key : string) (d : V) (duration : time.Duration) (now : time.Time)
| OpGet (key : string) (now : time.Time)
| OpDelete (key : string)
| OpCreateKey (delimiter : string) (args : list string)
| OpSetHook (operationType : OperationType) (handlerFunctions : list (HandlerFunc V W))
| OpTick (visits : list (string * time.Time)).

Definition exec (o : op) (σ : process V W) : process V W :=
  match o with
  | OpSet key d now => (Set_ key d now σ).2
  | OpSetEx key d duration now => (SetEx key d duration now σ).2
  | OpGet key now => (Get key now σ).2
  | OpDelete key => (Delete key σ).2
  | OpCreateKey delimiter args => (CreateKeyWithDelimiter delimiter args σ).2
  | OpSetHook operationType handlerFunctions => (SetHook operationType handlerFunctions σ).2
  | OpTick visits => (cleanupTick visits σ).2
  end.

Definition run (os : list op) (σ : process V W) : process V W :=
  foldl (λ σ o, exec o σ) σ os.

(** The explicit deletes and the writes of a key. *)
Definition writes (key : string) (o : op) : bool :=
  match o with
  | OpSet key' _ _ | OpSetEx key' _ _ _ | OpDelete key' => bool_decide (key' = key)
  | _ => false
  end.
End Runs.

Arguments op : clear implicits.

(** ** The sweeper goroutine and the stop channel *)

Module Sweeper.
Section Sweeper.
Context {V W : Type}.

(** The goroutine started by [NewCacheWithCleanup]: it is in the [select]
    of [cleanupLoop], or [cleanupLoop] has returned. *)
Inductive goroutine : Set := Selecting | Returned.

(** A call of [StopCleanup]: it is in the send [s.stop <- struct{}{}], or
    it has returned. *)
Inductive caller : Set := Sending | Done.

#[global] Instance caller_eq_dec : EqDecision caller.
Proof. solve_decision. Defined.

Record system : Type := System {
  proc : process V W;
  loop : goroutine;
  stops : list caller
}.

Inductive action : Type :=
| Tick (visits : list (string * time.Time))  (* [case <-t.C] *)
| Receive (i : nat)         (* [case <-s.stop] takes the send of call [i] *)
| CallStop                  (* a caller enters [StopCleanup] *)
| Method (o : op V W).      (* a caller runs another method *)

(** [s.stop] is made without a buffer, so a send completes only together
    with a receive, and the [select] of [cleanupLoop] is the only receive
    of the package.  An action that cannot happen gives [None]. *)
Definition next (a : action) (s : system) : option system :=
  match a with
  | Tick visits =>
      match loop s with
      | Selecting => Some (System (cleanupTick visits (proc s)).2 Selecting (stops s))
      | Returned => None
      end
  | Receive i =>
      match loop s, stops s !! i with
      | Selecting, Some Sending => Some (System (proc s) Returned (<[i := Done]> (stops s)))
      | _, _ => None
      end
  | CallStop => Some (System (proc s) (loop s) (stops s ++ [Sending]))
  | Method o =>
      match o with
      | OpTick _ => None
      | _ => Some (System (exec o (proc s)) (loop s) (stops s))
      end
  end.

Fixpoint schedule (acts : list action) (s : system) : option system :=
  match acts with
  | [] => Some s
  | a :: acts' =>
      match next a s with
      | Some s' => schedule acts' s'
      | None => None
      end
  end.

(** After [NewCacheWithCleanup]: the goroutine runs and nobody has called
    [StopCleanup]. *)
Definition boot (w : W) : system := System (NewCache w) Selecting [].

(** Call [i] of [StopCleanup] returns in some continuation of [s]. *)
Definition can_return (s : system) (i : nat) : Prop :=
  ∃ acts s', schedule acts s = Some s' ∧ stops s' !! i = Some Done.

(** Call [i] of [StopCleanup] is in its send in every continuation of [s]. *)
Definition blocked_forever (s : system) (i : nat) : Prop :=
  ∀ acts s', schedule acts s = Some s' → stops s' !! i = Some Sending.

Definition returned (s : system) : nat := length (filter (.= Done) (stops s)).

(** While the goroutine selects no call has returned; once [cleanupLoop]
    has returned exactly one has. *)
Definition served (s : system) : Prop :=
  match loop s with
  | Selecting => returned s = 0%nat
  | Returned => returned s = 1%nat
  end.

(** Every call of [StopCleanup] made in a run of the package from [boot]
    can return. *)
Definition StopCleanup_safe : Prop :=
  ∀ (w : W) acts s i,
    schedule acts (boot w) = Some s → is_Some (stops s !! i) → can_return s i.
End Sweeper.
Arguments system : clear implicits.
Arguments action : clear implicits.
End Sweeper.

(** ** A cache of strings whose handlers write a log *)

Module Logged.
(** The log: which handler was called, with which key and value. *)
Definition Log : Type := list (string * string * string).

Definition logger (name : string) : HandlerFunc string Log :=
  λ key d w, w ++ [(name, key, d)].

Definition fresh : process string Log := NewCache [].

(** A cache with one [Create] and one [Delete] handler and two entries
    written at second 100: ["p"] by [Set] and ["e"] by [SetEx] with a
    [ttl] of 40 seconds. *)
Definition sample : process string Log :=
  run [OpSetHook CreateOperation [logger "c"];
       OpSetHook DeleteOperation [logger "d"];
       OpSet "p" "one" (100 * time.Second);
       OpSetEx "e" "two" (40 * time.Second) (100 * time.Second)] fresh.
End Logged.

(** ** Vocabulary of the properties *)

Section Vocabulary.
Context {V W : Type}.

(** The handlers that [processHooks] finds for a kind. *)
Definition registered (operationType : OperationType) (σ : process V W)
    : list (HandlerFunc V W) :=
  default [] (hooks (heap σ) !! operationType).

(** The world after each handler of the list has been called once with
    [(key, d)], first to last. *)
Definition invoke (hs : list (HandlerFunc V W)) (key : string) (d : V) (w : W) : W :=
  foldl (λ w h, h key d w) w hs.

(** The expiry test of [removeIfExpired]. *)
Definition expired (sd : storageData V) (now : time.Time) : bool :=
  negb (isPersistence sd)
  && bool_decide (time.Unix (time.Add (setTime sd) (expireDuration sd)) ≤ time.Unix now).

(** The state after the entry of [key] is removed and the [Delete]
    handlers have run for it. *)
Definition reaped (key : string) (sd : storageData V) (σ : process V W) : process V W :=
  Process (Storage (delete key (data (heap σ))) (hooks (heap σ)))
          (invoke (registered DeleteOperation σ) key (sdData sd) (world σ)).

(** The state after an entry is stored under [key] and the [Create]
    handlers have run for it. *)
Definition written (key : string) (sd : storageData V) (σ : process V W) : process V W :=
  Process (Storage (<[key := sd]> (data (heap σ))) (hooks (heap σ)))
          (invoke (registered CreateOperation σ) key (sdData sd) (world σ)).
End Vocabulary.

(** ** The package before it had hooks

    The earlier text of the package: the same [storageData], a [storage]
    without [hooks], [Delete] a plain [delete(s.data, key)] and
    [removeIfExpired] deleting from the map itself.  Its receiver is a copy
    of the struct, whose [data] is the same map.  The state is [s.data]. *)

Module Legacy.
Section Legacy.
Context {V : Type}.
Implicit Types (m : gmap string (storageData V)).

(** The method [Set]. *)
Definition Set_ (key : string) (d : V) (now : time.Time) m
    : gmap string (storageData V) :=
  <[key := StorageData true now 0 d]> m.

Definition SetEx (key : string) (d : V) (duration : time.Duration)
    (now : time.Time) m : gmap string (storageData V) :=
  <[key := StorageData false now duration d]> m.

Definition Delete (key : string) m : gmap string (storageData V) :=
  delete key m.

Definition removeIfExpired (key : string) (sd : storageData V)
    (now : time.Time) m : bool * gmap string (storageData V) :=
  if isPersistence sd then (false, m)
  else if time.Unix (time.Add (setTime sd) (expireDuration sd)) <=? time.Unix now
  then (true, delete key m)
  else (false, m).

Definition Get (key : string) (now : time.Time) m
    : (V + error) * gmap string (storageData V) :=
  match m !! key with
  | Some value =>
      let '(gone, m') := removeIfExpired key value now m in
      if (gone : bool) then (inr ErrCacheKeyNotFound, m')
      else (inl (sdData value), m')
  | None => (inr ErrCacheKeyNotFound, m)
  end.

(** One tick of [cleanupLoop], with [visits] as in [cleanupTick]. *)
Definition cleanupTick (visits : list (string * time.Time)) m
    : gmap string (storageData V) :=
  foldl (λ m '(key, now),
           match m !! key with
           | Some sd => (removeIfExpired key sd now m).2
           | None => m
           end) m visits.

(** A run of the calls that the earlier package has; it has no [SetHook],
    and its [CreateKeyWithDelimiter] is the same pure function. *)
Definition exec {W : Type} (o : op V W) m : gmap string (storageData V) :=
  match o with
  | OpSet key d now => Set_ key d now m
  | OpSetEx key d duration now => SetEx key d duration now m
  | OpGet key now => (Get key now m).2
  | OpDelete key => Delete key m
  | OpCreateKey _ _ => m
  | OpSetHook _ _ => m
  | OpTick visits => cleanupTick visits m
  end.

Definition run {W : Type} (os : list (op V W)) m : gmap string (storageData V) :=
  foldl (λ m o, exec o m) m os.
End Legacy.
End Legacy.

(** ** Vocabulary of runs and sweeps *)

Section RunVocabulary.
Context {V W : Type}.

(** The clock readings at which a step tests the entry of [key]: the
    reading of a [Get] of [key], and the readings of a tick at [key]. *)
Definition checks (key : string) (o : op V W) : list time.Time :=
  match o with
  | OpGet key' now => if bool_decide (key' = key) then [now] else []
  | OpTick visits => (filter (λ v, v.1 = key) visits).*2
  | _ => []
  end.

(** A tick as lazy reads: a [Get] of each key at its clock reading. *)
Definition reads (visits : list (string * time.Time)) : list (op V W) :=
  (λ v, OpGet v.1 v.2) <$> visits.

(** The entries of [σ] that a tick finds expired: the visited keys that
    have an entry in [σ] which is expired at the clock reading of the
    visit, in the order of the visits. *)
Definition due (visits : list (string * time.Time)) (σ : process V W)
    : list (string * storageData V) :=
  omap (λ v, sd ← data (heap σ) !! v.1;
             if expired sd v.2 then Some (v.1, sd) else None) visits.

(** The calls of [SetHook]. *)
Definition registers (o : op V W) : bool :=
  match o with
  | OpSetHook _ _ => true
  | _ => false
  end.

(** The method calls among the actions of a schedule. *)
Definition methods_of (acts : list (Sweeper.action V W)) : list (op V W) :=
  omap (λ a, match a with Sweeper.Method o => Some o | _ => None end) acts.
End RunVocabulary.

(** ** The methods, one equation each *)

Ltac unfold_M :=
  unfold mbind, mret, M_bind, M_ret, getData, putData, getHooks, putHooks, call in *;
  simpl in *.

Section Equations.
Context {V W : Type}.
Implicit Types (σ : process V W) (sd : storageData V) (key : string)
  (now : time.Time) (hs : list (HandlerFunc V W)).

Lemma process_eta σ : Process (heap σ) (world σ) = σ.
Proof. by destruct σ. Qed.

Lemma forRange_call hs key (d : V) σ :
  forRange hs (λ h, call h key d) σ = ((), Process (heap σ) (invoke hs key d (world σ))).
Proof.
  revert σ. induction hs as [|h hs IH]; intros σ.
  - simpl. unfold_M. by rewrite process_eta.
  - simpl. unfold_M. by rewrite IH.
Qed.

Lemma processHooks_eq operationType key (d : V) σ :
  processHooks operationType key d σ
  = ((), Process (heap σ) (invoke (registered operationType σ) key d (world σ))).
Proof.
  unfold processHooks, registered. unfold_M.
  destruct (hooks (heap σ) !! operationType) as [hs|]; simpl.
  - apply forRange_call.
  - by rewrite process_eta.
Qed.

Lemma Set_eq key (d : V) now σ :
  Set_ key d now σ = ((), written key (StorageData true now 0 d) σ).
Proof. unfold Set_. unfold_M. by rewrite processHooks_eq. Qed.

Lemma SetEx_eq key (d : V) duration now σ :
  SetEx key d duration now σ = ((), written key (StorageData false now duration d) σ).
Proof. unfold SetEx. unfold_M. by rewrite processHooks_eq. Qed.

Lemma Delete_eq key σ :
  Delete key σ =
    ((), match data (heap σ) !! key with
         | Some sd => reaped key sd σ
         | None => σ
         end).
Proof.
  unfold Delete. unfold_M.
  destruct (data (heap σ) !! key) as [sd|]; [|done].
  by rewrite processHooks_eq.
Qed.

Lemma expired_persistent sd now : isPersistence sd = true → expired sd now = false.
Proof. unfold expired. by intros ->. Qed.

Lemma expired_true sd now :
  expired sd now = true
  ↔ isPersistence sd = false
    ∧ time.Unix (time.Add (setTime sd) (expireDuration sd)) ≤ time.Unix now.
Proof.
  unfold expired. rewrite andb_true_iff, negb_true_iff, bool_decide_eq_true. done.
Qed.

Lemma expired_false sd now :
  expired sd now = false
  ↔ isPersistence sd = true
    ∨ time.Unix now < time.Unix (time.Add (setTime sd) (expireDuration sd)).
Proof.
  unfold expired. rewrite andb_false_iff, negb_false_iff, bool_decide_eq_false.
  split; (intros [?|?]; [by left|right; lia]).
Qed.

Lemma removeIfExpired_eq key sd now σ :
  removeIfExpired key sd now σ =
    if expired sd now then (true, (Delete key σ).2) else (false, σ).
Proof.
  unfold removeIfExpired, expired.
  destruct (isPersistence sd); simpl; [done|].
  destruct (Z.leb_spec (time.Unix (time.Add (setTime sd) (expireDuration sd)))
              (time.Unix now)).
  - rewrite bool_decide_eq_true_2 by done. unfold_M. by destruct (Delete key σ).
  - rewrite bool_decide_eq_false_2 by lia. done.
Qed.

Lemma Get_eq key now σ :
  Get key now σ =
    match data (heap σ) !! key with
    | None => (inr ErrCacheKeyNotFound, σ)
    | Some sd =>
        if expired sd now then (inr ErrCacheKeyNotFound, reaped key sd σ)
        else (inl (sdData sd), σ)
    end.
Proof.
  unfold Get. unfold_M.
  destruct (data (heap σ) !! key) as [sd|] eqn:E; [|done].
  rewrite removeIfExpired_eq. destruct (expired sd now); [|done].
  by rewrite Delete_eq, E.
Qed.

Lemma SetHook_eq operationType hs σ :
  SetHook operationType hs σ =
    ((), match hooks (heap σ) !! operationType with
         | Some _ => σ
         | None => Process (Storage (data (heap σ)) (<[operationType := hs]> (hooks (heap σ))))
                           (world σ)
         end).
Proof.
  unfold SetHook. unfold_M.
  by destruct (hooks (heap σ) !! operationType).
Qed.
End Equations.


(** ** Reading, writing and deleting *)

Section Methods.
Context {V W : Type}.
Implicit Types (σ : process V W) (sd : storageData V) (key : string)
  (now : time.Time) (hs : list (HandlerFunc V W)).

Lemma lookup_written key sd σ : data (heap (written key sd σ)) !! key = Some sd.
Proof. simpl. apply lookup_insert_eq. Qed.

(** C2, amended.  [Get] returns the stored value and no error exactly when
    the key has an entry that is persistent or whose [setTime + ttl] lies in
    a later whole Unix second than the clock, and then leaves the state as
    it is.  For a key without an entry it returns
    [ErrCacheKeyNotFound] and leaves the state as it is.  For a key whose
    entry is expired it returns [ErrCacheKeyNotFound], the entry is removed
    from [s.data], and every registered [Delete] handler has been called
    with the key and the value of the entry.  Expired is the test of
    [removeIfExpired]: not persistent, and the whole second of
    [setTime + ttl] at or before the whole second of the clock, which can be
    up to a second before the instant [setTime + ttl]. *)
Theorem Get_live_or_not_found σ key now :
  Get key now σ =
    match data (heap σ) !! key with
    | None => (inr ErrCacheKeyNotFound, σ)
    | Some sd =>
        if expired sd now
        then (inr ErrCacheKeyNotFound,
              Process (Storage (delete key (data (heap σ))) (hooks (heap σ)))
                      (invoke (registered DeleteOperation σ) key (sdData sd) (world σ)))
        else (inl (sdData sd), σ)
    end
  ∧ (∀ v, (Get key now σ).1 = inl v
      ↔ ∃ sd, data (heap σ) !! key = Some sd ∧ sdData sd = v
              ∧ (isPersistence sd = true
                 ∨ time.Unix now
                   < time.Unix (time.Add (setTime sd) (expireDuration sd))))
  ∧ ((Get key now σ).1 = inr ErrCacheKeyNotFound
     ↔ (data (heap σ) !! key = None
        ∨ ∃ sd, data (heap σ) !! key = Some sd ∧ isPersistence sd = false
                ∧ time.Unix (time.Add (setTime sd) (expireDuration sd))
                  ≤ time.Unix now)).
Proof.
  rewrite Get_eq. split; [reflexivity|].
  destruct (data (heap σ) !! key) as [sd|]; [destruct (expired sd now) eqn:E|]; simpl.
  - split; [intros v|]; split.
    + intros [=].
    + intros (sd' & [= <-] & _ & Hlive). apply expired_false in Hlive. congruence.
    + intros _. right. exists sd. by apply expired_true in E.
    + done.
  - split; [intros v|]; split.
    + intros [= <-]. exists sd. by apply expired_false in E.
    + by intros (sd' & [= <-] & <- & _).
    + intros [=].
    + intros [[=]|(sd' & [= <-] & Hexp)]. apply expired_true in Hexp. congruence.
  - split; [intros v|]; split.
    + intros [=].
    + by intros (sd' & [=] & _).
    + by left.
    + done.
Qed.

(** C4.  [Set(k, v)] followed by [Get(k)] returns [v] and no error,
    whatever the store held before and whatever the clock reads at the two
    calls. *)
Theorem Set_then_Get σ (k : string) (v : V) (now now' : time.Time) :
  (Get k now' (Set_ k v now σ).2).1 = inl v.
Proof.
  rewrite Set_eq, Get_eq. simpl. rewrite lookup_insert_eq. done.
Qed.

(** C5.  [Delete] of a key without an entry leaves the store and the world
    as they are: no handler is called.  [Delete] of a key with an entry
    removes the entry and calls each registered [Delete] handler once, in
    order, with the key and the value of the removed entry. *)
Theorem Delete_absent_or_present σ (k : string) :
  Delete k σ =
    ((), match data (heap σ) !! k with
         | None => σ
         | Some sd =>
             Process (Storage (delete k (data (heap σ))) (hooks (heap σ)))
                     (foldl (λ w h, h k (sdData sd) w) (world σ)
                            (default [] (hooks (heap σ) !! DeleteOperation)))
         end)
  ∧ data (heap (Delete k σ).2) !! k = None.
Proof.
  rewrite Delete_eq. split; [done|].
  destruct (data (heap σ) !! k) as [sd|] eqn:E; simpl; [|done].
  apply lookup_delete_eq.
Qed.

(** C7.  A write to a key that has an entry stores a new entry whose value,
    persistence flag, creation time and ttl are those of the call, and calls
    each registered [Create] handler once with the key and the new value.
    What a following [Get] returns is decided by the new entry alone: the
    value after [Set]; after [SetEx] the value or, once the new entry is
    expired, [ErrCacheKeyNotFound]. *)
Theorem overwrite_replaces_entry σ (k : string) (old : storageData V) (v : V)
    (d : time.Duration) (now now' : time.Time) :
  data (heap σ) !! k = Some old →
  (Set_ k v now σ).2
    = Process (Storage (<[k := StorageData true now 0 v]> (data (heap σ))) (hooks (heap σ)))
              (invoke (registered CreateOperation σ) k v (world σ))
  ∧ (SetEx k v d now σ).2
    = Process (Storage (<[k := StorageData false now d v]> (data (heap σ))) (hooks (heap σ)))
              (invoke (registered CreateOperation σ) k v (world σ))
  ∧ data (heap (Set_ k v now σ).2) !! k = Some (StorageData true now 0 v)
  ∧ data (heap (SetEx k v d now σ).2) !! k = Some (StorageData false now d v)
  ∧ (Get k now' (Set_ k v now σ).2).1 = inl v
  ∧ (Get k now' (SetEx k v d now σ).2).1
    = if bool_decide (time.Unix (time.Add now d) ≤ time.Unix now')
      then inr ErrCacheKeyNotFound else inl v.
Proof.
  intros _. rewrite Set_eq, SetEx_eq, !Get_eq. simpl.
  rewrite !lookup_insert_eq. unfold expired. simpl.
  repeat split. by case_bool_decide.
Qed.
End Methods.

(** ** Expiry *)

Section Expiry.
Context {V W : Type}.
Implicit Types (σ : process V W) (sd : storageData V) (key : string)
  (now : time.Time).

Lemma removeIfExpired_fst key sd now σ :
  (removeIfExpired key sd now σ).1 = expired sd now.
Proof. rewrite removeIfExpired_eq. by destruct (expired sd now). Qed.

Lemma Unix_mono (t t' : time.Time) : t ≤ t' → time.Unix t ≤ time.Unix t'.
Proof. intros. unfold time.Unix, time.Second. by apply Z.div_le_mono. Qed.

Lemma Unix_bounds (t : time.Time) :
  time.Unix t * time.Second ≤ t < (time.Unix t + 1) * time.Second.
Proof.
  unfold time.Unix, time.Second.
  pose proof (Z.mul_div_le t 1000000000 ltac:(lia)).
  pose proof (Z.mul_succ_div_gt t 1000000000 ltac:(lia)). lia.
Qed.

(** C8.  [removeIfExpired] reports an entry expired exactly when the entry
    is not persistent and the whole Unix second of [setTime + ttl] is at or
    before the whole Unix second of the clock.  So a report never comes a
    full second before [setTime + ttl], it can come any shorter time before
    it, two ttls that end in the same whole second are not told apart, and
    an entry with a ttl of 0 is expired at every check made at or after its
    creation time. *)
Theorem expiry_in_whole_seconds σ key sd now :
  ((removeIfExpired key sd now σ).1 = true
   ↔ isPersistence sd = false
     ∧ time.Unix (time.Add (setTime sd) (expireDuration sd)) ≤ time.Unix now)
  ∧ ((removeIfExpired key sd now σ).1 = true
     → time.Add (setTime sd) (expireDuration sd) - time.Second < now)
  ∧ (∀ early : time.Duration, 0 < early < time.Second →
       ∃ (t0 : time.Time) (ttl : time.Duration) (now' : time.Time),
         t0 ≤ now' ∧ now' + early = time.Add t0 ttl
         ∧ (removeIfExpired key (StorageData false t0 ttl (sdData sd)) now' σ).1 = true)
  ∧ (∀ (t0 : time.Time) (d1 d2 : time.Duration),
       time.Unix (time.Add t0 d1) = time.Unix (time.Add t0 d2) →
       (removeIfExpired key (StorageData false t0 d1 (sdData sd)) now σ).1
       = (removeIfExpired key (StorageData false t0 d2 (sdData sd)) now σ).1)
  ∧ (isPersistence sd = false → expireDuration sd = 0 → setTime sd ≤ now →
       (removeIfExpired key sd now σ).1 = true).
Proof.
  split; [|split; [|split; [|split]]].
  - rewrite removeIfExpired_fst. apply expired_true.
  - rewrite removeIfExpired_fst. intros [_ Hle]%expired_true.
    pose proof (Unix_bounds (time.Add (setTime sd) (expireDuration sd))).
    pose proof (Unix_bounds now). unfold time.Second in *. nia.
  - intros early [Hpos Hlt]. exists 0, early, 0.
    split; [done|]. split; [done|].
    rewrite removeIfExpired_fst. apply expired_true. split; [done|]. simpl.
    unfold time.Unix, time.Add. rewrite Z.add_0_l.
    rewrite Z.div_small by lia. done.
  - intros t0 d1 d2 Heq. rewrite !removeIfExpired_fst. unfold expired. simpl.
    by rewrite Heq.
  - intros Hp Hd Hle. rewrite removeIfExpired_fst. apply expired_true.
    split; [done|]. rewrite Hd. unfold time.Add. rewrite Z.add_0_r.
    by apply Unix_mono.
Qed.



End Expiry.

(** ** Composite keys *)

Section Keys.
Context {V W : Type}.

Lemma string_app_assoc (a b c : string) : (a +:+ b) +:+ c = a +:+ b +:+ c.
Proof.
  induction a as [|x a IH]; [done|].
  change (String x ((a +:+ b) +:+ c) = String x (a +:+ b +:+ c)). by f_equal.
Qed.

Lemma Join_foldl (sep e : string) (rest : list string) :
  foldl (λ b s, b +:+ sep +:+ s) e rest = String.concat sep (e :: rest).
Proof.
  revert e. induction rest as [|r rest IH]; intros e; [done|].
  simpl foldl. rewrite IH.
  change (String.concat sep (e :: r :: rest))
    with (e +:+ sep +:+ String.concat sep (r :: rest)).
  destruct rest as [|r' rest]; simpl.
  - done.
  - by rewrite !string_app_assoc.
Qed.

Lemma Join_concat (elems : list string) (sep : string) :
  strings.Join elems sep = String.concat sep elems.
Proof.
  destruct elems as [|e [|r rest]]; [done..|].
  unfold strings.Join. apply Join_foldl.
Qed.

(** C10.  [CreateKey] returns its parts joined with [":"] and
    [CreateKeyWithDelimiter] its parts joined with the delimiter, where
    joined is [String.concat] of the standard library; both return the
    state they were called in, so neither reads nor writes the store. *)
Theorem CreateKey_joins_parts (σ : process V W) (delimiter : string) (args : list string) :
  CreateKeyWithDelimiter delimiter args σ = (String.concat delimiter args, σ)
  ∧ CreateKey args σ = (String.concat ":" args, σ)
  ∧ CreateKey ["a"; "b"] σ = ("a:b", σ)
  ∧ CreateKeyWithDelimiter "-" ["a"; "b"] σ = ("a-b", σ).
Proof.
  unfold CreateKey, CreateKeyWithDelimiter, defaultDelimiter. unfold_M.
  rewrite !Join_concat. done.
Qed.
End Keys.

(** ** Entries written by [Set] stay *)

Section Persistence.
Context {V W : Type}.
Implicit Types (σ : process V W) (sd : storageData V) (key k : string)
  (now : time.Time) (o : op V W).

Lemma Delete_keeps k key sd σ :
  key ≠ k → data (heap σ) !! k = Some sd → data (heap (Delete key σ).2) !! k = Some sd.
Proof.
  intros Hne Hk. rewrite Delete_eq. simpl.
  destruct (data (heap σ) !! key); simpl; [|done].
  by rewrite lookup_delete_ne.
Qed.

(** The check of an entry that the map holds under [key] keeps a
    persistent entry of [k], also when [key] is [k]. *)
Lemma removeIfExpired_keeps k key sd sd' now σ :
  data (heap σ) !! k = Some sd → isPersistence sd = true →
  data (heap σ) !! key = Some sd' →
  data (heap (removeIfExpired key sd' now σ).2) !! k = Some sd.
Proof.
  intros Hk Hp Hkey. rewrite removeIfExpired_eq.
  destruct (expired sd' now) eqn:E; [|done]. simpl.
  destruct (decide (key = k)) as [->|Hne].
  - assert (sd' = sd) as -> by congruence.
    by rewrite expired_persistent in E.
  - by apply Delete_keeps.
Qed.

Lemma cleanupTick_cons key now (visits : list (string * time.Time)) σ :
  (cleanupTick ((key, now) :: visits) σ).2
  = (cleanupTick visits
       match data (heap σ) !! key with
       | Some sd => (removeIfExpired key sd now σ).2
       | None => σ
       end).2.
Proof.
  unfold cleanupTick. simpl. unfold_M.
  destruct (data (heap σ) !! key) as [sd|]; [|done].
  by destruct (removeIfExpired key sd now σ).
Qed.

Lemma cleanupTick_keeps k sd (visits : list (string * time.Time)) σ :
  data (heap σ) !! k = Some sd → isPersistence sd = true →
  data (heap (cleanupTick visits σ).2) !! k = Some sd.
Proof.
  revert σ. induction visits as [|[key now] visits IH]; intros σ Hk Hp; [done|].
  rewrite cleanupTick_cons. apply IH; [|done].
  destruct (data (heap σ) !! key) as [sd'|] eqn:E; [|done].
  by apply removeIfExpired_keeps.
Qed.

Lemma exec_keeps k sd o σ :
  data (heap σ) !! k = Some sd → isPersistence sd = true → writes k o = false →
  data (heap (exec o σ)) !! k = Some sd.
Proof.
  intros Hk Hp Hw. destruct o as [key d now|key d dur now|key now|key|? ?|kind hs|visits];
    simpl in *; try apply bool_decide_eq_false in Hw.
  - rewrite Set_eq. simpl. by rewrite lookup_insert_ne.
  - rewrite SetEx_eq. simpl. by rewrite lookup_insert_ne.
  - rewrite Get_eq. destruct (data (heap σ) !! key) as [sd'|] eqn:E; [|done].
    destruct (expired sd' now) eqn:Ex; [|done]. simpl.
    destruct (decide (key = k)) as [->|Hne].
    + assert (sd' = sd) as -> by congruence. by rewrite expired_persistent in Ex.
    + by rewrite lookup_delete_ne.
  - by apply Delete_keeps.
  - done.
  - rewrite SetHook_eq. simpl. by destruct (hooks (heap σ) !! kind).
  - by apply cleanupTick_keeps.
Qed.

Lemma run_keeps k sd (os : list (op V W)) σ :
  data (heap σ) !! k = Some sd → isPersistence sd = true →
  Forall (λ o, writes k o = false) os →
  data (heap (run os σ)) !! k = Some sd.
Proof.
  intros Hk Hp Hos. revert σ Hk.
  induction Hos as [|o os Ho _ IH]; intros σ Hk; [done|].
  simpl. apply IH. by apply exec_keeps.
Qed.

(** C6.  After [Set(k, v)], whatever calls and sweep ticks follow and
    whatever their clocks read, as long as none of them is a [Delete], a
    [Set] or a [SetEx] of [k]: the store still holds the entry that [Set]
    wrote, and a [Get(k)] at any time returns [v] and removes nothing. *)
Theorem Set_entry_never_expires σ k (v : V) now (os : list (op V W)) (now' : time.Time) :
  Forall (λ o, writes k o = false) os →
  data (heap (run os (Set_ k v now σ).2)) !! k = Some (StorageData true now 0 v)
  ∧ Get k now' (run os (Set_ k v now σ).2) = (inl v, run os (Set_ k v now σ).2).
Proof.
  intros Hos.
  assert (data (heap (run os (Set_ k v now σ).2)) !! k = Some (StorageData true now 0 v))
    as Hk.
  { apply run_keeps; [|done..]. rewrite Set_eq. apply lookup_written. }
  split; [done|]. by rewrite Get_eq, Hk.
Qed.
End Persistence.

(** ** Registering handlers *)

Section Hooks.
Context {V W : Type}.
Implicit Types (σ : process V W) (hs : list (HandlerFunc V W)).

(** [SetHook] for a kind that [s.hooks] already has changes nothing. *)
Lemma SetHook_registered_kind (operationType : OperationType) hs hs' σ :
  hooks (heap σ) !! operationType = Some hs →
  SetHook operationType hs' σ = ((), σ).
Proof. intros H. by rewrite SetHook_eq, H. Qed.

(** [SetHook] for a kind that [s.hooks] does not have stores the handlers. *)
Lemma SetHook_new_kind (operationType : OperationType) hs σ :
  hooks (heap σ) !! operationType = None →
  registered operationType (SetHook operationType hs σ).2 = hs.
Proof.
  intros H. rewrite SetHook_eq, H. unfold registered. simpl.
  by rewrite lookup_insert_eq.
Qed.
End Hooks.

(** ** Stopping the sweeper *)

Section Stop.
Context {V W : Type}.
Implicit Types (s : Sweeper.system V W) (a : Sweeper.action V W) (i : nat).

Import Sweeper.

Lemma returned_app_Sending (l : list caller) :
  length (filter (.= Done) (l ++ [Sending])) = length (filter (.= Done) l).
Proof.
  rewrite filter_app, length_app.
  rewrite filter_cons_False by done. rewrite filter_nil. simpl. lia.
Qed.

Lemma returned_insert_Done (l : list caller) i :
  l !! i = Some Sending →
  length (filter (.= Done) (<[i := Done]> l)) = S (length (filter (.= Done) l)).
Proof.
  revert i. induction l as [|c l IH]; intros [|i] Hi; try done.
  - simpl in Hi. injection Hi as ->.
    change (<[0%nat := Done]> (Sending :: l)) with (Done :: l).
    rewrite filter_cons_True by done. by rewrite filter_cons_False by done.
  - simpl in Hi. change (<[S i := Done]> (c :: l)) with (c :: <[i := Done]> l).
    destruct (decide (c = Done)) as [->|Hc].
    + rewrite !filter_cons_True by done. simpl. by rewrite IH.
    + rewrite !filter_cons_False by done. by apply IH.
Qed.

Lemma next_served a s s' : next a s = Some s' → served s → served s'.
Proof.
  unfold served, returned.
  destruct a as [visits|i| |o]; simpl.
  - destruct (loop s); [|done]. by intros [= <-].
  - destruct (loop s); [|done].
    destruct (stops s !! i) as [[|]|] eqn:E; [|done..].
    intros [= <-] H. simpl. by rewrite returned_insert_Done, H.
  - intros [= <-]. simpl. by rewrite returned_app_Sending.
  - destruct o; intros [= <-]; done.
Qed.

Lemma schedule_served (acts : list (action V W)) s s' :
  schedule acts s = Some s' → served s → served s'.
Proof.
  revert s. induction acts as [|a acts IH]; intros s; simpl.
  - by intros [= <-].
  - destruct (next a s) as [s1|] eqn:E; [|done].
    intros H1 H2. apply (IH s1); [done|]. by apply (next_served a s).
Qed.

(** After [cleanupLoop] has returned nothing receives from [s.stop]. *)
Lemma next_after_return a s s' i :
  next a s = Some s' → loop s = Returned → stops s !! i = Some Sending →
  loop s' = Returned ∧ stops s' !! i = Some Sending.
Proof.
  destruct a as [visits|j| |o]; simpl; intros H Hl Hi; rewrite ?Hl in H.
  - done.
  - done.
  - injection H as <-. simpl. split; [done|]. by apply lookup_app_l_Some.
  - destruct o; try done; injection H as <-; done.
Qed.

Lemma blocked_after_return s i :
  loop s = Returned → stops s !! i = Some Sending → blocked_forever s i.
Proof.
  intros Hl Hi acts. revert s Hl Hi.
  induction acts as [|a acts IH]; intros s Hl Hi s'; simpl.
  - by intros [= <-].
  - destruct (next a s) as [s1|] eqn:E; [|done].
    destruct (next_after_return a s s1 i E Hl Hi) as [? ?]. by apply IH.
Qed.

(** C9, amended.  In a run of the package, take a call of [StopCleanup]
    that is in its send.  At most one call has returned.  While the
    goroutine of [cleanupLoop] runs no call has returned, and the receive of
    its [select] lets this call return; the store is as it was and
    [cleanupLoop] has returned.  Once [cleanupLoop] has returned, one call
    has returned and this call stays in its send in every continuation. *)
Theorem StopCleanup_returns_once (w : W) (acts : list (action V W)) s i :
  schedule acts (boot w) = Some s →
  stops s !! i = Some Sending →
  (returned s ≤ 1)%nat
  ∧ (loop s = Selecting →
       returned s = 0%nat
       ∧ ∃ s', next (Receive i) s = Some s'
               ∧ stops s' !! i = Some Done ∧ loop s' = Returned ∧ proc s' = proc s)
  ∧ (loop s = Returned → returned s = 1%nat ∧ blocked_forever s i).
Proof.
  intros Hrun Hi.
  assert (served s) as Hs by by apply (schedule_served acts (boot w)).
  unfold served in Hs. split; [destruct (loop s); lia|]. split; intros Hl.
  - rewrite Hl in Hs. split; [done|].
    eexists. simpl. rewrite Hl, Hi. split; [done|]. simpl.
    split; [|done]. apply list_lookup_insert_eq. by eapply lookup_lt_Some.
  - rewrite Hl in Hs. split; [done|]. by apply blocked_after_return.
Qed.
End Stop.

(** ** What a call leaves alone *)

Section Frames.
Context {V W : Type}.
Implicit Types (σ : process V W) (sd : storageData V) (key k : string)
  (now : time.Time) (o : op V W) (hs : list (HandlerFunc V W)).

Lemma Get_state key now σ :
  (Get key now σ).2 =
    match data (heap σ) !! key with
    | Some sd => if expired sd now then reaped key sd σ else σ
    | None => σ
    end.
Proof.
  rewrite Get_eq. destruct (data (heap σ) !! key) as [sd|]; [|done].
  by destruct (expired sd now).
Qed.

Lemma Get_hooks key now σ : hooks (heap (Get key now σ).2) = hooks (heap σ).
Proof.
  rewrite Get_state. destruct (data (heap σ) !! key) as [sd|]; [|done].
  by destruct (expired sd now).
Qed.

Lemma Get_lookup_Some key now σ k sd :
  data (heap (Get key now σ).2) !! k = Some sd
  ↔ data (heap σ) !! k = Some sd ∧ ¬ (k = key ∧ expired sd now = true).
Proof.
  rewrite Get_state. destruct (data (heap σ) !! key) as [sd'|] eqn:E.
  - destruct (expired sd' now) eqn:Ex; simpl.
    + destruct (decide (k = key)) as [->|Hne].
      * rewrite lookup_delete_eq. split; [done|].
        intros [Hk Hn]. destruct Hn. split; [done|]. congruence.
      * rewrite lookup_delete_ne by done. split; [|by intros [? _]].
        intros Hk. split; [done|]. by intros [? _].
    + split; [|by intros [? _]]. intros Hk. split; [done|].
      intros [-> Hx]. congruence.
  - split; [|by intros [? _]]. intros Hk. split; [done|].
    intros [-> _]. congruence.
Qed.

Lemma Delete_hooks key σ : hooks (heap (Delete key σ).2) = hooks (heap σ).
Proof. rewrite Delete_eq. simpl. by destruct (data (heap σ) !! key). Qed.

Lemma cleanupTick_step key now (visits : list (string * time.Time)) σ :
  (cleanupTick ((key, now) :: visits) σ).2 = (cleanupTick visits (Get key now σ).2).2.
Proof.
  rewrite cleanupTick_cons, Get_state.
  destruct (data (heap σ) !! key) as [sd|] eqn:E; [|done].
  rewrite removeIfExpired_eq. destruct (expired sd now); [|done].
  simpl. by rewrite Delete_eq, E.
Qed.

Lemma cleanupTick_as_run (visits : list (string * time.Time)) σ :
  (cleanupTick visits σ).2 = run (reads visits) σ.
Proof.
  revert σ. induction visits as [|[key now] visits IH]; intros σ; [done|].
  rewrite cleanupTick_step, IH. done.
Qed.

Lemma cleanupTick_hooks (visits : list (string * time.Time)) σ :
  hooks (heap (cleanupTick visits σ).2) = hooks (heap σ).
Proof.
  revert σ. induction visits as [|[key now] visits IH]; intros σ; [done|].
  by rewrite cleanupTick_step, IH, Get_hooks.
Qed.

(** Only [SetHook] writes [s.hooks]. *)
Lemma exec_hooks_same o σ :
  registers o = false → hooks (heap (exec o σ)) = hooks (heap σ).
Proof.
  intros Hr. destruct o as [key d now|key d dur now|key now|key|? ?|kind' hs'|visits];
    simpl; try done.
  - by rewrite Set_eq.
  - by rewrite SetEx_eq.
  - by rewrite Get_hooks.
  - by rewrite Delete_hooks.
  - by rewrite cleanupTick_hooks.
Qed.

(** X1.  The first [SetHook] for a kind, one that has no handlers yet,
    leaves the handlers of every other kind, the entries and the world as
    they are: it calls no handler. *)
Theorem SetHook_leaves_other_kinds (kind kind' : OperationType) hs σ :
  hooks (heap σ) !! kind = None →
  kind ≠ kind' →
  hooks (heap (SetHook kind hs σ).2) !! kind' = hooks (heap σ) !! kind'
  ∧ registered kind' (SetHook kind hs σ).2 = registered kind' σ
  ∧ data (heap (SetHook kind hs σ).2) = data (heap σ)
  ∧ world (SetHook kind hs σ).2 = world σ.
Proof.
  intros Hnew Hne. rewrite SetHook_eq, Hnew. unfold registered. simpl.
  by rewrite lookup_insert_ne.
Qed.

(** X2.  The first [SetHook] for a kind registers the handlers it is given:
    a [Set] or [SetEx] after the first [SetHook] for [Create], and a
    [Delete] of a key with an entry after the first [SetHook] for [Delete],
    call these handlers, each once, first to last, with the key and the
    value. *)
Theorem first_SetHook_is_dispatched hs σ (k : string) (v : V) (d : time.Duration)
    (now : time.Time) :
  (hooks (heap σ) !! CreateOperation = None →
     world (Set_ k v now (SetHook CreateOperation hs σ).2).2
       = foldl (λ w h, h k v w) (world σ) hs
     ∧ world (SetEx k v d now (SetHook CreateOperation hs σ).2).2
       = foldl (λ w h, h k v w) (world σ) hs)
  ∧ (∀ sd, hooks (heap σ) !! DeleteOperation = None →
           data (heap σ) !! k = Some sd →
           world (Delete k (SetHook DeleteOperation hs σ).2).2
           = foldl (λ w h, h k (sdData sd) w) (world σ) hs).
Proof.
  split.
  - intros Hc. rewrite Set_eq, SetEx_eq, !SetHook_eq, Hc.
    unfold written, registered. simpl. by rewrite !lookup_insert_eq.
  - intros sd Hd Hk. rewrite Delete_eq, !SetHook_eq, Hd. simpl. rewrite Hk.
    unfold reaped, registered. simpl. by rewrite !lookup_insert_eq.
Qed.

(** X3.  A call for one key leaves the entry of every other key as it is:
    [Set], [SetEx], [Get] and [Delete] of [k] do not change what the store
    holds under [k']. *)
Theorem other_keys_untouched σ (k k' : string) (v : V) (d : time.Duration)
    (now : time.Time) :
  k ≠ k' →
  data (heap (Set_ k v now σ).2) !! k' = data (heap σ) !! k'
  ∧ data (heap (SetEx k v d now σ).2) !! k' = data (heap σ) !! k'
  ∧ data (heap (Get k now σ).2) !! k' = data (heap σ) !! k'
  ∧ data (heap (Delete k σ).2) !! k' = data (heap σ) !! k'.
Proof.
  intros Hne. rewrite Set_eq, SetEx_eq, Get_state, Delete_eq. simpl.
  rewrite !lookup_insert_ne by done. repeat split.
  - destruct (data (heap σ) !! k) as [sd|]; [|done].
    destruct (expired sd now); [|done]. simpl. by rewrite lookup_delete_ne.
  - destruct (data (heap σ) !! k) as [sd|]; [|done].
    simpl. by rewrite lookup_delete_ne.
Qed.

(** X5.  Not found stays not found without a second notification: when
    [Get] of a key returns [ErrCacheKeyNotFound], a [Get] of the key in the
    state it leaves, at any clock reading, returns [ErrCacheKeyNotFound]
    and changes nothing, so the [Delete] handlers are not called again for
    the entry that expired. *)
Theorem Get_not_found_is_stable σ (k : string) (now now' : time.Time) :
  (Get k now σ).1 = inr ErrCacheKeyNotFound →
  Get k now' (Get k now σ).2 = (inr ErrCacheKeyNotFound, (Get k now σ).2).
Proof.
  intros Hnf. rewrite (Get_eq k now') . rewrite Get_eq in Hnf |- *.
  destruct (data (heap σ) !! k) as [sd|] eqn:E.
  - destruct (expired sd now); [|done]. simpl. by rewrite lookup_delete_eq.
  - simpl. by rewrite E.
Qed.

(** X6.  A write followed by [Delete] of the key: the store holds what it
    held before without the key (exactly what it held when the key had no
    entry), and the handlers called are the [Create] handlers and then the
    [Delete] handlers, each with the key and the value just written. *)
Theorem write_then_Delete σ (k : string) (v : V) (d : time.Duration)
    (now : time.Time) :
  (Delete k (Set_ k v now σ).2).2
    = Process (Storage (delete k (data (heap σ))) (hooks (heap σ)))
              (invoke (registered DeleteOperation σ) k v
                 (invoke (registered CreateOperation σ) k v (world σ)))
  ∧ (Delete k (SetEx k v d now σ).2).2 = (Delete k (Set_ k v now σ).2).2
  ∧ (data (heap σ) !! k = None →
       data (heap (Delete k (Set_ k v now σ).2).2) = data (heap σ)).
Proof.
  rewrite !Delete_eq, Set_eq, SetEx_eq. simpl. rewrite !lookup_insert_eq.
  unfold reaped, registered. simpl. rewrite !delete_insert_eq.
  repeat split. intros Hk. by apply delete_id.
Qed.
End Frames.

(** ** The sweep *)

Section Sweep.
Context {V W : Type}.
Implicit Types (σ : process V W) (sd : storageData V) (key k : string)
  (now : time.Time) (visits : list (string * time.Time)).

Lemma cleanupTick_lookup_Some visits σ k sd :
  data (heap (cleanupTick visits σ).2) !! k = Some sd
  ↔ data (heap σ) !! k = Some sd
    ∧ ∀ now, (k, now) ∈ visits → expired sd now = false.
Proof.
  revert σ. induction visits as [|[key now] visits IH]; intros σ.
  - simpl. split; [|by intros [? _]]. intros Hk. split; [done|].
    intros now [] %elem_of_nil.
  - rewrite cleanupTick_step, IH, Get_lookup_Some. split.
    + intros [[Hk Hn] Hrest]. split; [done|].
      intros now' [[= -> ->]|Hin] %elem_of_cons; [|by apply Hrest].
      destruct (expired sd now) eqn:E; [|done]. by destruct Hn.
    + intros [Hk Hall]. split; [split; [done|]|].
      * intros [-> E]. rewrite Hall in E; [done|]. by left.
      * intros now' Hin. apply Hall. by right.
Qed.

Lemma cleanupTick_lookup_None visits σ k sd :
  data (heap σ) !! k = Some sd →
  data (heap (cleanupTick visits σ).2) !! k = None →
  ∃ now, (k, now) ∈ visits ∧ expired sd now = true.
Proof.
  revert σ. induction visits as [|[key now] visits IH]; intros σ Hk Hnone.
  - simpl in Hnone. congruence.
  - rewrite cleanupTick_step in Hnone.
    destruct (decide (k = key ∧ expired sd now = true)) as [[-> E]|Hn].
    + exists now. split; [by left|done].
    + destruct (IH (Get key now σ).2) as (now' & Hin & E); [|done|].
      * by apply Get_lookup_Some.
      * exists now'. split; [by right|done].
Qed.

Lemma cleanupTick_noop visits σ :
  (∀ k now sd, (k, now) ∈ visits → data (heap σ) !! k = Some sd →
               expired sd now = false) →
  (cleanupTick visits σ).2 = σ.
Proof.
  induction visits as [|[key now] visits IH]; intros Hall; [done|].
  rewrite cleanupTick_step.
  assert ((Get key now σ).2 = σ) as ->.
  { rewrite Get_state. destruct (data (heap σ) !! key) as [sd|] eqn:E; [|done].
    rewrite (Hall key now sd); [done|by left|done]. }
  apply IH. intros k now' sd Hin. apply Hall. by right.
Qed.

Lemma due_cons key now visits σ :
  due ((key, now) :: visits) σ =
    match data (heap σ) !! key with
    | Some sd => if expired sd now then (key, sd) :: due visits σ else due visits σ
    | None => due visits σ
    end.
Proof.
  unfold due. simpl. destruct (data (heap σ) !! key) as [sd|]; [|done].
  simpl. by destruct (expired sd now).
Qed.

Lemma due_after_Get key now visits σ :
  key ∉ visits.*1 → due visits (Get key now σ).2 = due visits σ.
Proof.
  intros Hnotin. unfold due. apply list_omap_ext, Forall2_same_length_lookup.
  split; [done|]. intros i [k t] v2 H1 H2. assert (v2 = (k, t)) as -> by congruence.
  assert (key ≠ k) as Hne.
  { intros ->. apply Hnotin, list_elem_of_fmap. exists (k, t).
    split; [done|]. by eapply list_elem_of_lookup_2. }
  simpl. rewrite Get_state.
  destruct (data (heap σ) !! key) as [sd|]; [|done].
  destruct (expired sd now); [|done]. simpl. by rewrite lookup_delete_ne.
Qed.

Lemma cleanupTick_due visits σ :
  NoDup visits.*1 →
  (cleanupTick visits σ).2
  = Process (Storage (foldl (λ m e, delete e.1 m) (data (heap σ)) (due visits σ))
                     (hooks (heap σ)))
            (foldl (λ w e, invoke (registered DeleteOperation σ) e.1 (sdData e.2) w)
                   (world σ) (due visits σ)).
Proof.
  revert σ. induction visits as [|[key now] visits IH]; intros σ Hnd.
  - simpl. by destruct σ as [[] ?].
  - apply NoDup_cons in Hnd as [Hnotin Hnd]. simpl in Hnotin.
    rewrite cleanupTick_step, IH by done.
    rewrite due_after_Get by done. rewrite due_cons, Get_hooks.
    unfold registered. rewrite Get_hooks. rewrite Get_state.
    destruct (data (heap σ) !! key) as [sd|]; [|done].
    by destruct (expired sd now).
Qed.

(** X7.  A sweep tick only takes away expired entries: it leaves the hook
    registry as it is, an entry the store holds after the tick is an entry
    it held before, and an entry that is gone after the tick is not
    persistent and was visited at a clock reading whose whole second is at
    or after the whole second of [setTime + ttl]. *)
Theorem sweep_only_reaps_expired visits σ :
  hooks (heap (cleanupTick visits σ).2) = hooks (heap σ)
  ∧ (∀ k sd, data (heap (cleanupTick visits σ).2) !! k = Some sd →
             data (heap σ) !! k = Some sd)
  ∧ (∀ k sd, data (heap σ) !! k = Some sd →
             data (heap (cleanupTick visits σ).2) !! k = None →
             isPersistence sd = false
             ∧ ∃ now, (k, now) ∈ visits
                      ∧ time.Unix (time.Add (setTime sd) (expireDuration sd))
                        ≤ time.Unix now).
Proof.
  split; [apply cleanupTick_hooks|]. split.
  - intros k sd H. by apply cleanupTick_lookup_Some in H as [? _].
  - intros k sd Hk Hnone.
    destruct (cleanupTick_lookup_None visits σ k sd Hk Hnone) as (now & Hin & E).
    apply expired_true in E as [? ?]. eauto.
Qed.

(** X8.  A sweep tick takes away every expired entry it visits: an entry
    that is not persistent and is visited at a clock reading whose whole
    second is at or after the whole second of [setTime + ttl] is gone after
    the tick, without any [Get] of its key. *)
Theorem sweep_reaps_visited_expired visits σ k sd now :
  data (heap σ) !! k = Some sd →
  (k, now) ∈ visits →
  isPersistence sd = false →
  time.Unix (time.Add (setTime sd) (expireDuration sd)) ≤ time.Unix now →
  data (heap (cleanupTick visits σ).2) !! k = None.
Proof.
  intros Hk Hin Hp Hle.
  destruct (data (heap (cleanupTick visits σ).2) !! k) as [sd'|] eqn:E; [|done].
  apply cleanupTick_lookup_Some in E as [Hk' Hall].
  assert (sd' = sd) as -> by congruence.
  assert (expired sd now = true) as Hx by by apply expired_true.
  rewrite (Hall now Hin) in Hx. done.
Qed.

(** X9.  A sweep tick that reaches each key once removes exactly the
    entries that are expired at the clock reading of their visit and calls
    the [Delete] handlers once for each of them, in the order of the
    visits, with the key and the value of the entry. *)
Theorem sweep_notifies_once_per_entry visits σ :
  NoDup visits.*1 →
  data (heap (cleanupTick visits σ).2)
  = foldl (λ m e, delete e.1 m) (data (heap σ)) (due visits σ)
  ∧ world (cleanupTick visits σ).2
  = foldl (λ w e, foldl (λ w h, h e.1 (sdData e.2) w) w
                        (default [] (hooks (heap σ) !! DeleteOperation)))
          (world σ) (due visits σ).
Proof. intros Hnd. by rewrite cleanupTick_due. Qed.

(** X10.  A second sweep tick with the same visits and clock readings does
    nothing: no entry is removed and no handler is called. *)
Theorem sweep_twice_is_sweep_once visits σ :
  (cleanupTick visits (cleanupTick visits σ).2).2 = (cleanupTick visits σ).2.
Proof.
  apply cleanupTick_noop. intros k now sd Hin Hk.
  apply cleanupTick_lookup_Some in Hk as [_ Hall]. by apply Hall.
Qed.

(** X11.  The sweep and the lazy expiry agree: a tick leaves the state
    that a [Get] of each visited key, at the clock reading of its visit and
    in the order of the visits, leaves. *)
Theorem sweep_is_lazy_reads visits σ :
  (cleanupTick visits σ).2
  = foldl (λ σ v, (Get v.1 v.2 σ).2) σ visits.
Proof.
  rewrite cleanupTick_as_run. unfold run, reads.
  revert σ. induction visits as [|[key now] visits IH]; intros σ; [done|].
  simpl. apply IH.
Qed.
End Sweep.

(** ** Entries with a ttl *)

Section Ttl.
Context {V W : Type}.
Implicit Types (σ : process V W) (sd : storageData V) (key k : string)
  (now : time.Time) (o : op V W).

Lemma exec_keeps_unexpired k sd o σ :
  data (heap σ) !! k = Some sd → writes k o = false →
  Forall (λ t, expired sd t = false) (checks k o) →
  data (heap (exec o σ)) !! k = Some sd.
Proof.
  intros Hk Hw Hc. destruct o as [key d now|key d dur now|key now|key|? ?|kind hs|visits];
    simpl in *; try apply bool_decide_eq_false in Hw.
  - rewrite Set_eq. simpl. by rewrite lookup_insert_ne.
  - rewrite SetEx_eq. simpl. by rewrite lookup_insert_ne.
  - apply Get_lookup_Some. split; [done|]. intros [-> E].
    rewrite bool_decide_eq_true_2 in Hc by done.
    apply Forall_cons in Hc as [Hc _]. congruence.
  - rewrite Delete_eq. simpl. destruct (data (heap σ) !! key); [|done].
    simpl. by rewrite lookup_delete_ne.
  - done.
  - rewrite SetHook_eq. simpl. by destruct (hooks (heap σ) !! kind).
  - apply cleanupTick_lookup_Some. split; [done|]. intros now Hin.
    rewrite Forall_forall in Hc. apply Hc.
    apply list_elem_of_fmap. exists (k, now). split; [done|].
    by apply list_elem_of_filter.
Qed.

Lemma run_keeps_unexpired k sd (os : list (op V W)) σ :
  data (heap σ) !! k = Some sd →
  Forall (λ o, writes k o = false ∧ Forall (λ t, expired sd t = false) (checks k o)) os →
  data (heap (run os σ)) !! k = Some sd.
Proof.
  intros Hk Hos. revert σ Hk.
  induction Hos as [|o os [Hw Hc] _ IH]; intros σ Hk; [done|].
  simpl. apply IH. by apply exec_keeps_unexpired.
Qed.

(** X12.  An entry written by [SetEx] stays until it expires: after
    [SetEx(k, v, d)] at time [t0], whatever calls and sweep ticks follow, as
    long as none is a [Delete], [Set] or [SetEx] of [k] and every [Get] of
    [k] and every visit of the sweep at [k] reads a clock whose whole second
    is before the whole second of [t0 + d], the store holds the entry, and a
    [Get(k)] at such a clock reading returns [v] and changes nothing. *)
Theorem SetEx_entry_stays_until_expiry σ k (v : V) (d : time.Duration)
    (t0 t : time.Time) (os : list (op V W)) :
  Forall (λ o, writes k o = false
               ∧ Forall (λ t', time.Unix t' < time.Unix (time.Add t0 d)) (checks k o)) os →
  time.Unix t < time.Unix (time.Add t0 d) →
  data (heap (run os (SetEx k v d t0 σ).2)) !! k = Some (StorageData false t0 d v)
  ∧ Get k t (run os (SetEx k v d t0 σ).2) = (inl v, run os (SetEx k v d t0 σ).2).
Proof.
  intros Hos Ht.
  assert (∀ t', time.Unix t' < time.Unix (time.Add t0 d) →
                expired (StorageData false t0 d v) t' = false) as Hlive.
  { intros t' Ht'. apply expired_false. by right. }
  assert (data (heap (run os (SetEx k v d t0 σ).2)) !! k
          = Some (StorageData false t0 d v)) as Hk.
  { apply run_keeps_unexpired.
    - rewrite SetEx_eq. apply lookup_written.
    - eapply Forall_impl; [exact Hos|]. intros o [Hw Hc]. split; [done|].
      eapply Forall_impl; [exact Hc|]. intros t'. apply Hlive. }
  split; [done|]. rewrite Get_eq, Hk. by rewrite Hlive.
Qed.

(** X13.  [SetEx] with a ttl of zero or less writes an entry that is
    expired at once: a [Get] of the key at any clock reading not before the
    write returns [ErrCacheKeyNotFound], removes the entry and calls the
    [Delete] handlers with the value, after the [Create] handlers that the
    write called. *)
Theorem SetEx_without_ttl_expires_at_once σ (k : string) (v : V)
    (d : time.Duration) (t0 t1 : time.Time) :
  d ≤ 0 → t0 ≤ t1 →
  Get k t1 (SetEx k v d t0 σ).2
  = (inr ErrCacheKeyNotFound,
     Process (Storage (delete k (data (heap σ))) (hooks (heap σ)))
             (invoke (registered DeleteOperation σ) k v
                (invoke (registered CreateOperation σ) k v (world σ)))).
Proof.
  intros Hd Ht. rewrite SetEx_eq, Get_eq. simpl. rewrite lookup_insert_eq.
  assert (expired (StorageData false t0 d v) t1 = true) as ->.
  { apply expired_true. split; [done|]. simpl. apply Unix_mono.
    unfold time.Add. lia. }
  unfold reaped, registered. simpl. by rewrite delete_insert_eq.
Qed.
End Ttl.

(** ** After the sweeper has stopped *)

Section Stopped.
Context {V W : Type}.
Implicit Types (s : Sweeper.system V W).

Import Sweeper.

Lemma schedule_after_return (acts : list (action V W)) s s' :
  loop s = Returned → schedule acts s = Some s' →
  loop s' = Returned ∧ proc s' = run (methods_of acts) (proc s).
Proof.
  revert s. induction acts as [|a acts IH]; intros s Hl; simpl.
  - by intros [= <-].
  - destruct a as [visits|i| |o]; simpl; rewrite ?Hl; try done.
    + intros H. by apply IH in H.
    + destruct o; try done; intros H; by apply IH in H.
Qed.

(** X14.  Once [cleanupLoop] has returned no sweep tick happens: a tick is
    not an action of the system any more, and in every continuation the
    store is the one that the method calls of the callers alone leave, so
    entries expire only when a [Get] meets them. *)
Theorem no_sweep_after_stop (acts : list (action V W)) s s'
    (visits : list (string * time.Time)) :
  loop s = Returned →
  schedule acts s = Some s' →
  next (Tick visits) s' = None
  ∧ loop s' = Returned
  ∧ proc s' = run (methods_of acts) (proc s).
Proof.
  intros Hl Hs. destruct (schedule_after_return acts s s' Hl Hs) as [Hl' Hp].
  split; [|done]. simpl. by rewrite Hl'.
Qed.
End Stopped.

(** ** Keys of several levels *)

Section Nesting.
Context {V W : Type}.

Lemma concat_app_nonempty (sep : string) (xs ys : list string) :
  xs ≠ [] → ys ≠ [] →
  String.concat sep (xs ++ ys) = String.concat sep xs +:+ sep +:+ String.concat sep ys.
Proof.
  intros Hx Hy. induction xs as [|x [|x' xs] IH]; [done| |].
  - destruct ys; done.
  - change (String.concat sep ((x :: x' :: xs) ++ ys))
      with (x +:+ sep +:+ String.concat sep ((x' :: xs) ++ ys)).
    rewrite IH by done.
    change (String.concat sep (x :: x' :: xs))
      with (x +:+ sep +:+ String.concat sep (x' :: xs)).
    by rewrite !string_app_assoc.
Qed.

(** X15.  Keys compose: the key made of the key of a non-empty list of
    parts and the key of another non-empty list, with one delimiter, is the
    key of the two lists of parts put together.  In particular a key made
    from a prefix key and further parts is the key of all the parts. *)
Theorem CreateKey_of_keys (σ : process V W) (delimiter : string) (xs ys : list string) :
  xs ≠ [] → ys ≠ [] →
  (CreateKeyWithDelimiter delimiter
     [(CreateKeyWithDelimiter delimiter xs σ).1;
      (CreateKeyWithDelimiter delimiter ys σ).1] σ).1
  = (CreateKeyWithDelimiter delimiter (xs ++ ys) σ).1
  ∧ (CreateKey [(CreateKey xs σ).1; (CreateKey ys σ).1] σ).1 = (CreateKey (xs ++ ys) σ).1
  ∧ (CreateKey ((CreateKey xs σ).1 :: ys) σ).1 = (CreateKey (xs ++ ys) σ).1.
Proof.
  intros Hx Hy. unfold CreateKey, CreateKeyWithDelimiter, mret, M_ret.
  cbn [fst]. rewrite !Join_concat, !concat_app_nonempty by done.
  repeat split. destruct ys; done.
Qed.
End Nesting.

(** ** The package with and without hooks *)

Section Hookless.
Context {V W : Type}.
Implicit Types (σ : process V W) (key : string) (now : time.Time).

Lemma Legacy_Get_eq key now (m : gmap string (storageData V)) :
  Legacy.Get key now m =
    match m !! key with
    | None => (inr ErrCacheKeyNotFound, m)
    | Some sd =>
        if expired sd now then (inr ErrCacheKeyNotFound, delete key m)
        else (inl (sdData sd), m)
    end.
Proof.
  unfold Legacy.Get, Legacy.removeIfExpired, expired.
  destruct (m !! key) as [sd|]; [|done].
  destruct (isPersistence sd); simpl; [done|].
  destruct (Z.leb_spec (time.Unix (time.Add (setTime sd) (expireDuration sd)))
              (time.Unix now)).
  - by rewrite bool_decide_eq_true_2.
  - by rewrite bool_decide_eq_false_2 by lia.
Qed.

Lemma Get_Legacy key now σ :
  (Get key now σ).1 = (Legacy.Get key now (data (heap σ))).1
  ∧ data (heap (Get key now σ).2) = (Legacy.Get key now (data (heap σ))).2.
Proof.
  rewrite Get_eq, Legacy_Get_eq.
  destruct (data (heap σ) !! key) as [sd|]; [|done].
  by destruct (expired sd now).
Qed.

Lemma Legacy_cleanupTick_step key now visits (m : gmap string (storageData V)) :
  Legacy.cleanupTick ((key, now) :: visits) m
  = Legacy.cleanupTick visits (Legacy.Get key now m).2.
Proof.
  unfold Legacy.cleanupTick. simpl. f_equal. unfold Legacy.Get.
  destruct (m !! key) as [sd|]; [|done].
  destruct (Legacy.removeIfExpired key sd now m) as [[] ?]; done.
Qed.

Lemma cleanupTick_Legacy visits σ :
  data (heap (cleanupTick visits σ).2) = Legacy.cleanupTick visits (data (heap σ)).
Proof.
  revert σ. induction visits as [|[key now] visits IH]; intros σ; [done|].
  rewrite cleanupTick_step, Legacy_cleanupTick_step, IH.
  by destruct (Get_Legacy key now σ) as [_ ->].
Qed.

Lemma exec_Legacy (o : op V W) σ :
  data (heap (exec o σ)) = Legacy.exec o (data (heap σ)).
Proof.
  destruct o as [key d now|key d dur now|key now|key|? ?|kind hs|visits]; simpl.
  - by rewrite Set_eq.
  - by rewrite SetEx_eq.
  - by destruct (Get_Legacy key now σ) as [_ ->].
  - rewrite Delete_eq. unfold Legacy.Delete.
    destruct (data (heap σ) !! key) eqn:E; simpl; [done|]. by rewrite delete_id.
  - done.
  - rewrite SetHook_eq. simpl. by destruct (hooks (heap σ) !! kind).
  - apply cleanupTick_Legacy.
Qed.

Lemma run_Legacy (os : list (op V W)) σ :
  data (heap (run os σ)) = Legacy.run os (data (heap σ)).
Proof.
  revert σ. induction os as [|o os IH]; intros σ; [done|].
  simpl. by rewrite IH, exec_Legacy.
Qed.

Lemma Get_world_no_hooks key now σ :
  hooks (heap σ) = ∅ → world (Get key now σ).2 = world σ.
Proof.
  intros Hh. rewrite Get_state. destruct (data (heap σ) !! key) as [sd|]; [|done].
  destruct (expired sd now); [|done]. unfold reaped, registered. simpl.
  by rewrite Hh, lookup_empty.
Qed.

Lemma cleanupTick_world_no_hooks visits σ :
  hooks (heap σ) = ∅ → world (cleanupTick visits σ).2 = world σ.
Proof.
  revert σ. induction visits as [|[key now] visits IH]; intros σ Hh; [done|].
  rewrite cleanupTick_step, IH by by rewrite Get_hooks.
  by apply Get_world_no_hooks.
Qed.

Lemma exec_world_no_hooks (o : op V W) σ :
  hooks (heap σ) = ∅ → registers o = false → world (exec o σ) = world σ.
Proof.
  intros Hh Hr. destruct o as [key d now|key d dur now|key now|key|? ?|kind hs|visits];
    simpl; try done.
  - rewrite Set_eq. unfold written, registered. simpl. by rewrite Hh, lookup_empty.
  - rewrite SetEx_eq. unfold written, registered. simpl. by rewrite Hh, lookup_empty.
  - by apply Get_world_no_hooks.
  - rewrite Delete_eq. simpl. destruct (data (heap σ) !! key); [|done].
    unfold reaped, registered. simpl. by rewrite Hh, lookup_empty.
  - by apply cleanupTick_world_no_hooks.
Qed.

Lemma run_no_hooks (os : list (op V W)) σ :
  hooks (heap σ) = ∅ → Forall (λ o, registers o = false) os →
  hooks (heap (run os σ)) = ∅ ∧ world (run os σ) = world σ.
Proof.
  intros Hh Hos. revert σ Hh.
  induction Hos as [|o os Ho _ IH]; intros σ Hh; [done|].
  simpl. destruct (IH (exec o σ)) as [? ->].
  - by rewrite exec_hooks_same.
  - split; [done|]. by apply exec_world_no_hooks.
Qed.

(** X16.  A cache on which [SetHook] is never called is the earlier package
    without hooks: from a state with no handlers, after any run of calls
    and sweep ticks without a [SetHook], no handler has been called, the
    entries are those that the earlier package holds after the same run,
    and a [Get] returns what the [Get] of the earlier package returns and
    leaves the entries that it leaves. *)
Theorem without_SetHook_as_before_hooks (os : list (op V W)) σ key now :
  hooks (heap σ) = ∅ →
  Forall (λ o, registers o = false) os →
  data (heap (run os σ)) = Legacy.run os (data (heap σ))
  ∧ world (run os σ) = world σ
  ∧ (Get key now (run os σ)).1
    = (Legacy.Get key now (Legacy.run os (data (heap σ)))).1
  ∧ data (heap (Get key now (run os σ)).2)
    = (Legacy.Get key now (Legacy.run os (data (heap σ)))).2
  ∧ world (Get key now (run os σ)).2 = world σ.
Proof.
  intros Hh Hos. destruct (run_no_hooks os σ Hh Hos) as [Hh' Hw].
  rewrite <- run_Legacy. split; [done|]. split; [done|].
  destruct (Get_Legacy key now (run os σ)) as [? ?].
  split; [done|]. split; [done|].
  by rewrite Get_world_no_hooks.
Qed.
End Hookless.

(** ** The properties on a cache of strings *)

Section Instances.
Import Logged.

(** C1.  [SetHook] for a kind that already has handlers: the handlers of
    the first call stay the registered ones, and the handler of the second
    call is not called by [Set], by [SetEx], by [Delete] or by the expiry of
    an entry met by [Get] or by the sweep.  Had the second call appended,
    each log would hold an entry of the second handler after the entry of
    the first. *)
Theorem SetHook_again_registers_nothing :
  registered CreateOperation
    (run [OpSetHook CreateOperation [logger "first"];
          OpSetHook CreateOperation [logger "second"]] fresh)
  = [logger "first"]
  ∧ world (run [OpSetHook CreateOperation [logger "first"];
                OpSetHook CreateOperation [logger "second"];
                OpSet "k" "v" 0;
                OpSetEx "k" "w" time.Second 0] fresh)
    = [("first", "k", "v"); ("first", "k", "w")]
  ∧ world (run [OpSetHook DeleteOperation [logger "first"];
                OpSetHook DeleteOperation [logger "second"];
                OpSet "k" "v" 0;
                OpDelete "k";
                OpSetEx "k" "w" time.Second 0;
                OpGet "k" (2 * time.Second);
                OpSetEx "k" "x" time.Second 0;
                OpTick [("k", 2 * time.Second)]] fresh)
    = [("first", "k", "v"); ("first", "k", "w"); ("first", "k", "x")].
Proof. vm_compute. done. Qed.
(** What the general lemma gives on the store of the first conjunct. *)
Lemma SetHook_second_call_changes_nothing :
  SetHook CreateOperation [logger "second"]
    (run [OpSetHook CreateOperation [logger "first"]] fresh)
  = ((), run [OpSetHook CreateOperation [logger "first"]] fresh).
Proof. by apply (SetHook_registered_kind _ [logger "first"]). Qed.

(** Two [Delete] handlers registered by one call are each called once by
    the [Delete] of a present key, and not at all by a second [Delete]. *)
Example Delete_calls_each_handler_once :
  world (run [OpSetHook DeleteOperation [logger "d1"; logger "d2"];
              OpSet "k" "v" 0;
              OpDelete "k";
              OpDelete "k"] fresh)
  = [("d1", "k", "v"); ("d2", "k", "v")].
Proof. vm_compute. done. Qed.



(** C2 as stated fails: an entry written at 100.7 s with a ttl of 0.5 s is
    not yet expired at 101.0 s, 0.2 s before [setTime + ttl], and [Get]
    returns [ErrCacheKeyNotFound] and removes it. *)
Lemma Get_before_expiry_instant_not_found :
  data (heap (SetEx "k" "v" (500 * time.Millisecond)
                (100700 * time.Millisecond) fresh).2) !! "k"
  = Some (StorageData false (100700 * time.Millisecond) (500 * time.Millisecond) "v")
  ∧ 101000 * time.Millisecond
    < time.Add (100700 * time.Millisecond) (500 * time.Millisecond)
  ∧ Get "k" (101000 * time.Millisecond)
      (SetEx "k" "v" (500 * time.Millisecond) (100700 * time.Millisecond) fresh).2
    = (inr ErrCacheKeyNotFound, fresh).
Proof. repeat split; by vm_compute. Qed.

Lemma Set_entry_never_expires_witness :
  Forall (λ o : op string Log, writes "p" o = false)
    [OpTick [("p", 4000000000 * time.Second)];
     OpGet "p" (4000000000 * time.Second);
     OpSetEx "q" "z" time.Second (4000000000 * time.Second);
     OpDelete "q";
     OpTick [("q", 4000000010 * time.Second); ("p", 4000000010 * time.Second)]]
  ∧ data (heap (run
       [OpTick [("p", 4000000000 * time.Second)];
        OpGet "p" (4000000000 * time.Second);
        OpSetEx "q" "z" time.Second (4000000000 * time.Second);
        OpDelete "q";
        OpTick [("q", 4000000010 * time.Second); ("p", 4000000010 * time.Second)]]
       (Set_ "p" "one" 0 fresh).2)) !! "p" = Some (StorageData true 0 0 "one")
  ∧ Get "p" (4000000020 * time.Second) (run
       [OpTick [("p", 4000000000 * time.Second)];
        OpGet "p" (4000000000 * time.Second);
        OpSetEx "q" "z" time.Second (4000000000 * time.Second);
        OpDelete "q";
        OpTick [("q", 4000000010 * time.Second); ("p", 4000000010 * time.Second)]]
       (Set_ "p" "one" 0 fresh).2)
    = (inl "one", run
       [OpTick [("p", 4000000000 * time.Second)];
        OpGet "p" (4000000000 * time.Second);
        OpSetEx "q" "z" time.Second (4000000000 * time.Second);
        OpDelete "q";
        OpTick [("q", 4000000010 * time.Second); ("p", 4000000010 * time.Second)]]
       (Set_ "p" "one" 0 fresh).2).
Proof.
  split; [repeat constructor|].
  apply (Set_entry_never_expires fresh "p" "one" 0). repeat constructor.
Defined.

Lemma overwrite_replaces_entry_witness :
  data (heap sample) !! "e"
  = Some (StorageData false (100 * time.Second) (40 * time.Second) "two")
  ∧ (Set_ "e" "three" (120 * time.Second) sample).2
    = Process (Storage (<["e" := StorageData true (120 * time.Second) 0 "three"]>
                          (data (heap sample))) (hooks (heap sample)))
              (invoke (registered CreateOperation sample) "e" "three" (world sample))
  ∧ (SetEx "e" "three" time.Second (120 * time.Second) sample).2
    = Process (Storage (<["e" := StorageData false (120 * time.Second) time.Second "three"]>
                          (data (heap sample))) (hooks (heap sample)))
              (invoke (registered CreateOperation sample) "e" "three" (world sample))
  ∧ data (heap (Set_ "e" "three" (120 * time.Second) sample).2) !! "e"
    = Some (StorageData true (120 * time.Second) 0 "three")
  ∧ data (heap (SetEx "e" "three" time.Second (120 * time.Second) sample).2) !! "e"
    = Some (StorageData false (120 * time.Second) time.Second "three")
  ∧ (Get "e" (130 * time.Second) (Set_ "e" "three" (120 * time.Second) sample).2).1
    = inl "three"
  ∧ (Get "e" (130 * time.Second)
       (SetEx "e" "three" time.Second (120 * time.Second) sample).2).1
    = if bool_decide (time.Unix (time.Add (120 * time.Second) time.Second)
                      ≤ time.Unix (130 * time.Second))
      then inr ErrCacheKeyNotFound else inl "three".
Proof.
  split; [by vm_compute|].
  apply (overwrite_replaces_entry sample "e"
           (StorageData false (100 * time.Second) (40 * time.Second) "two")).
  by vm_compute.
Defined.

(** The log of the overwrite: one call of the one [Create] handler. *)
Example overwrite_calls_Create_once :
  world (SetEx "e" "three" time.Second (120 * time.Second) sample).2
  = world sample ++ [("c", "e", "three")]
  ∧ (Get "e" (130 * time.Second)
       (SetEx "e" "three" time.Second (120 * time.Second) sample).2).1
    = inr ErrCacheKeyNotFound.
Proof. by vm_compute. Qed.

Import Sweeper.

(** C9 as stated fails: a call of [StopCleanup] made after [cleanupLoop] has
    returned stays in its send in every continuation, so not every call can
    return. *)
Lemma StopCleanup_second_call_blocks :
  schedule [CallStop; Receive 0; CallStop] (boot ([] : Log))
  = Some (System fresh Returned [Done; Sending])
  ∧ blocked_forever (System fresh Returned [Done; Sending]) 1
  ∧ ¬ @StopCleanup_safe string Log.
Proof.
  split; [done|]. split; [by apply blocked_after_return|].
  intros Hsafe.
  destruct (Hsafe [] [CallStop; Receive 0; CallStop]
              (System fresh Returned [Done; Sending]) 1%nat eq_refl
              ltac:(by eexists)) as (acts & s' & Hs & Hd).
  apply (blocked_after_return (System fresh Returned [Done; Sending]) 1) in Hs;
    [congruence|done..].
Qed.

Lemma StopCleanup_returns_once_witness :
  (schedule [CallStop; CallStop] (boot ([] : Log))
     = Some (System fresh Selecting [Sending; Sending])
   ∧ stops (System fresh Selecting [Sending; Sending]) !! 1%nat = Some Sending)
  ∧ (returned (System fresh Selecting [Sending; Sending]) ≤ 1)%nat
  ∧ (loop (System fresh Selecting [Sending; Sending]) = Selecting →
       returned (System fresh Selecting [Sending; Sending]) = 0%nat
       ∧ ∃ s', next (Receive 1) (System fresh Selecting [Sending; Sending]) = Some s'
               ∧ stops s' !! 1%nat = Some Done ∧ loop s' = Returned
               ∧ proc s' = proc (System fresh Selecting [Sending; Sending]))
  ∧ (loop (System fresh Selecting [Sending; Sending]) = Returned →
       returned (System fresh Selecting [Sending; Sending]) = 1%nat
       ∧ blocked_forever (System fresh Selecting [Sending; Sending]) 1).
Proof.
  split; [done|].
  apply (StopCleanup_returns_once ([] : Log) [CallStop; CallStop]); done.
Defined.
End Instances.

(** ** Instances of the further properties *)

Section MoreInstances.
Import Logged.

Lemma SetHook_leaves_other_kinds_witness :
  (hooks (heap (run [OpSetHook DeleteOperation [logger "d"];
                     OpSet "p" "one" 0] fresh)) !! CreateOperation = None
   ∧ CreateOperation ≠ DeleteOperation)
  ∧ hooks (heap (SetHook CreateOperation [logger "x"]
                   (run [OpSetHook DeleteOperation [logger "d"];
                         OpSet "p" "one" 0] fresh)).2) !! DeleteOperation
    = hooks (heap (run [OpSetHook DeleteOperation [logger "d"];
                        OpSet "p" "one" 0] fresh)) !! DeleteOperation
  ∧ registered DeleteOperation
      (SetHook CreateOperation [logger "x"]
         (run [OpSetHook DeleteOperation [logger "d"]; OpSet "p" "one" 0] fresh)).2
    = registered DeleteOperation
        (run [OpSetHook DeleteOperation [logger "d"]; OpSet "p" "one" 0] fresh)
  ∧ data (heap (SetHook CreateOperation [logger "x"]
                  (run [OpSetHook DeleteOperation [logger "d"];
                        OpSet "p" "one" 0] fresh)).2)
    = data (heap (run [OpSetHook DeleteOperation [logger "d"];
                       OpSet "p" "one" 0] fresh))
  ∧ world (SetHook CreateOperation [logger "x"]
             (run [OpSetHook DeleteOperation [logger "d"];
                   OpSet "p" "one" 0] fresh)).2
    = world (run [OpSetHook DeleteOperation [logger "d"]; OpSet "p" "one" 0] fresh).
Proof.
  split; [split; [by vm_compute|done]|].
  apply (SetHook_leaves_other_kinds CreateOperation DeleteOperation);
    [by vm_compute|done].
Defined.

Lemma first_SetHook_is_dispatched_witness :
  (hooks (heap fresh) !! CreateOperation = None
   ∧ hooks (heap (run [OpSet "k" "old" 0] fresh)) !! DeleteOperation = None
   ∧ data (heap (run [OpSet "k" "old" 0] fresh)) !! "k"
     = Some (StorageData true 0 0 "old"))
  ∧ (world (Set_ "k" "new" time.Second
              (SetHook CreateOperation [logger "a"; logger "b"] fresh).2).2
       = foldl (λ w h, h "k" "new" w) (world fresh) [logger "a"; logger "b"]
     ∧ world (SetEx "k" "new" time.Second time.Second
                (SetHook CreateOperation [logger "a"; logger "b"] fresh).2).2
       = foldl (λ w h, h "k" "new" w) (world fresh) [logger "a"; logger "b"])
  ∧ world (Delete "k"
             (SetHook DeleteOperation [logger "a"; logger "b"]
                (run [OpSet "k" "old" 0] fresh)).2).2
    = foldl (λ w h, h "k" (sdData (StorageData true 0 0 "old")) w)
            (world (run [OpSet "k" "old" 0] fresh)) [logger "a"; logger "b"].
Proof.
  split; [by vm_compute|]. split.
  - apply (first_SetHook_is_dispatched [logger "a"; logger "b"] fresh
             "k" "new" time.Second time.Second). by vm_compute.
  - apply (first_SetHook_is_dispatched [logger "a"; logger "b"]
             (run [OpSet "k" "old" 0] fresh) "k" "new" time.Second time.Second);
      by vm_compute.
Defined.

(** The log of the instance: the two handlers, first to last. *)
Example first_SetHook_log :
  world (Set_ "k" "new" time.Second
           (SetHook CreateOperation [logger "a"; logger "b"] fresh).2).2
  = [("a", "k", "new"); ("b", "k", "new")]
  ∧ world (Delete "k"
             (SetHook DeleteOperation [logger "a"; logger "b"]
                (run [OpSet "k" "old" 0] fresh)).2).2
    = [("a", "k", "old"); ("b", "k", "old")].
Proof. by vm_compute. Qed.

Lemma other_keys_untouched_witness :
  "e" ≠ "p"
  ∧ data (heap (Set_ "e" "v" (200 * time.Second) sample).2) !! "p"
    = data (heap sample) !! "p"
  ∧ data (heap (SetEx "e" "v" time.Second (200 * time.Second) sample).2) !! "p"
    = data (heap sample) !! "p"
  ∧ data (heap (Get "e" (200 * time.Second) sample).2) !! "p"
    = data (heap sample) !! "p"
  ∧ data (heap (Delete "e" sample).2) !! "p" = data (heap sample) !! "p".
Proof.
  split; [done|]. apply (other_keys_untouched sample "e" "p"). done.
Defined.

Lemma Get_not_found_is_stable_witness :
  (Get "e" (200 * time.Second) sample).1 = inr ErrCacheKeyNotFound
  ∧ Get "e" (100 * time.Second) (Get "e" (200 * time.Second) sample).2
    = (inr ErrCacheKeyNotFound, (Get "e" (200 * time.Second) sample).2).
Proof.
  split; [by vm_compute|].
  apply (Get_not_found_is_stable sample "e"). by vm_compute.
Defined.

(** The log of the instance: one call of the [Delete] handler for the
    expired entry, after the two [Create] calls of the writes. *)
Example Get_not_found_log :
  world (Get "e" (100 * time.Second) (Get "e" (200 * time.Second) sample).2).2
  = [("c", "p", "one"); ("c", "e", "two"); ("d", "e", "two")].
Proof. by vm_compute. Qed.

Lemma sweep_reaps_visited_expired_witness :
  (data (heap sample) !! "e"
     = Some (StorageData false (100 * time.Second) (40 * time.Second) "two")
   ∧ ("e", 140 * time.Second)
       ∈ [("p", 140 * time.Second); ("e", 140 * time.Second)]
   ∧ isPersistence (StorageData false (100 * time.Second) (40 * time.Second) "two")
     = false
   ∧ time.Unix (time.Add (100 * time.Second) (40 * time.Second))
     ≤ time.Unix (140 * time.Second))
  ∧ data (heap (cleanupTick [("p", 140 * time.Second); ("e", 140 * time.Second)]
                  sample).2) !! "e" = None.
Proof.
  assert (("e", 140 * time.Second)
            ∈ [("p", 140 * time.Second); ("e", 140 * time.Second)]) as Hin
    by (apply list_elem_of_further, list_elem_of_here).
  split; [split; [by vm_compute|]; split; [exact Hin|]; split; [done|by vm_compute]|].
  apply (sweep_reaps_visited_expired _ sample "e"
           (StorageData false (100 * time.Second) (40 * time.Second) "two")
           (140 * time.Second)); [by vm_compute|exact Hin|done|by vm_compute].
Defined.

Lemma sweep_notifies_once_per_entry_witness :
  NoDup [("p", 140 * time.Second); ("e", 140 * time.Second)].*1
  ∧ data (heap (cleanupTick [("p", 140 * time.Second); ("e", 140 * time.Second)]
                  sample).2)
    = foldl (λ m e, delete e.1 m) (data (heap sample))
            (due [("p", 140 * time.Second); ("e", 140 * time.Second)] sample)
  ∧ world (cleanupTick [("p", 140 * time.Second); ("e", 140 * time.Second)]
             sample).2
    = foldl (λ w e, foldl (λ w h, h e.1 (sdData e.2) w) w
                          (default [] (hooks (heap sample) !! DeleteOperation)))
            (world sample)
            (due [("p", 140 * time.Second); ("e", 140 * time.Second)] sample).
Proof.
  assert (NoDup [("p", 140 * time.Second); ("e", 140 * time.Second)].*1) as Hnd
    by (by apply (bool_decide_unpack _); vm_compute).
  split; [exact Hnd|].
  apply (sweep_notifies_once_per_entry _ sample Hnd).
Defined.

(** The log of the instance: one call of the [Delete] handler, for the
    entry that expired, and none for the persistent entry. *)
Example sweep_log :
  world (cleanupTick [("p", 140 * time.Second); ("e", 140 * time.Second)] sample).2
  = world sample ++ [("d", "e", "two")]
  ∧ due [("p", 140 * time.Second); ("e", 140 * time.Second)] sample
    = [("e", StorageData false (100 * time.Second) (40 * time.Second) "two")].
Proof. by vm_compute. Qed.

Lemma SetEx_entry_stays_until_expiry_witness :
  (Forall (λ o : op string Log,
             writes "e" o = false
             ∧ Forall (λ t', time.Unix t'
                             < time.Unix (time.Add (100 * time.Second) (40 * time.Second)))
                      (checks "e" o))
     [OpGet "e" (120 * time.Second);
      OpTick [("e", 139 * time.Second); ("x", 500 * time.Second)];
      OpSet "x" "y" (200 * time.Second);
      OpGet "x" (1000 * time.Second)]
   ∧ time.Unix (139 * time.Second + 999999999)
     < time.Unix (time.Add (100 * time.Second) (40 * time.Second)))
  ∧ data (heap (run [OpGet "e" (120 * time.Second);
                     OpTick [("e", 139 * time.Second); ("x", 500 * time.Second)];
                     OpSet "x" "y" (200 * time.Second);
                     OpGet "x" (1000 * time.Second)]
                  (SetEx "e" "two" (40 * time.Second) (100 * time.Second) fresh).2))
      !! "e"
    = Some (StorageData false (100 * time.Second) (40 * time.Second) "two")
  ∧ Get "e" (139 * time.Second + 999999999)
      (run [OpGet "e" (120 * time.Second);
            OpTick [("e", 139 * time.Second); ("x", 500 * time.Second)];
            OpSet "x" "y" (200 * time.Second);
            OpGet "x" (1000 * time.Second)]
         (SetEx "e" "two" (40 * time.Second) (100 * time.Second) fresh).2)
    = (inl "two",
       run [OpGet "e" (120 * time.Second);
            OpTick [("e", 139 * time.Second); ("x", 500 * time.Second)];
            OpSet "x" "y" (200 * time.Second);
            OpGet "x" (1000 * time.Second)]
         (SetEx "e" "two" (40 * time.Second) (100 * time.Second) fresh).2).
Proof.
  assert (Forall (λ o : op string Log,
             writes "e" o = false
             ∧ Forall (λ t', time.Unix t'
                             < time.Unix (time.Add (100 * time.Second) (40 * time.Second)))
                      (checks "e" o))
     [OpGet "e" (120 * time.Second);
      OpTick [("e", 139 * time.Second); ("x", 500 * time.Second)];
      OpSet "x" "y" (200 * time.Second);
      OpGet "x" (1000 * time.Second)]) as Hos
    by (repeat (constructor || split); by vm_compute).
  split; [split; [exact Hos|by vm_compute]|].
  apply (SetEx_entry_stays_until_expiry fresh "e" "two" (40 * time.Second)
           (100 * time.Second) (139 * time.Second + 999999999) _ Hos).
  by vm_compute.
Defined.

Lemma SetEx_without_ttl_expires_at_once_witness :
  (-5 * time.Second ≤ 0 ∧ 100 * time.Second ≤ 100 * time.Second)
  ∧ Get "k" (100 * time.Second)
      (SetEx "k" "v" (-5 * time.Second) (100 * time.Second) sample).2
    = (inr ErrCacheKeyNotFound,
       Process (Storage (delete "k" (data (heap sample))) (hooks (heap sample)))
               (invoke (registered DeleteOperation sample) "k" "v"
                  (invoke (registered CreateOperation sample) "k" "v" (world sample)))).
Proof.
  split; [by vm_compute|].
  apply (SetEx_without_ttl_expires_at_once sample "k" "v"); by vm_compute.
Defined.

Import Sweeper.

Lemma no_sweep_after_stop_witness :
  (loop (System fresh Returned [Done]) = Returned
   ∧ schedule [Method (OpSetEx "k" "v" time.Second 0); CallStop;
               Method (OpGet "k" (5 * time.Second))]
       (System fresh Returned [Done])
     = Some (System (run [OpSetEx "k" "v" time.Second 0;
                          OpGet "k" (5 * time.Second)] fresh)
                    Returned [Done; Sending]))
  ∧ next (Tick [("k", 5 * time.Second)])
      (System (run [OpSetEx "k" "v" time.Second 0;
                    OpGet "k" (5 * time.Second)] fresh)
              Returned [Done; Sending]) = None
  ∧ loop (System (run [OpSetEx "k" "v" time.Second 0;
                       OpGet "k" (5 * time.Second)] fresh)
                 Returned [Done; Sending]) = Returned
  ∧ proc (System (run [OpSetEx "k" "v" time.Second 0;
                       OpGet "k" (5 * time.Second)] fresh)
                 Returned [Done; Sending])
    = run (methods_of [Method (OpSetEx "k" "v" time.Second 0); CallStop;
                       Method (OpGet "k" (5 * time.Second))])
          (proc (System fresh Returned [Done])).
Proof.
  split; [split; reflexivity|].
  apply (no_sweep_after_stop
           [Method (OpSetEx "k" "v" time.Second 0); CallStop;
            Method (OpGet "k" (5 * time.Second))]
           (System fresh Returned [Done])); reflexivity.
Defined.

Lemma CreateKey_of_keys_witness :
  (["user"; "12"] ≠ [] ∧ ["profile"] ≠ [])
  ∧ (CreateKeyWithDelimiter "-"
       [(CreateKeyWithDelimiter "-" ["user"; "12"] fresh).1;
        (CreateKeyWithDelimiter "-" ["profile"] fresh).1] fresh).1
    = (CreateKeyWithDelimiter "-" (["user"; "12"] ++ ["profile"]) fresh).1
  ∧ (CreateKey [(CreateKey ["user"; "12"] fresh).1;
                (CreateKey ["profile"] fresh).1] fresh).1
    = (CreateKey (["user"; "12"] ++ ["profile"]) fresh).1
  ∧ (CreateKey ((CreateKey ["user"; "12"] fresh).1 :: ["profile"]) fresh).1
    = (CreateKey (["user"; "12"] ++ ["profile"]) fresh).1.
Proof.
  split; [done|]. apply (CreateKey_of_keys fresh "-" ["user"; "12"] ["profile"]); done.
Defined.
Lemma without_SetHook_as_before_hooks_witness :
  (hooks (heap fresh) = ∅
   ∧ Forall (λ o : op string Log, registers o = false)
       [OpSet "p" "one" (100 * time.Second);
        OpSetEx "e" "two" (40 * time.Second) (100 * time.Second);
        OpDelete "q";
        OpTick [("e", 120 * time.Second); ("p", 120 * time.Second)];
        OpGet "e" (150 * time.Second);
        OpDelete "p"])
  ∧ data (heap (run [OpSet "p" "one" (100 * time.Second);
                     OpSetEx "e" "two" (40 * time.Second) (100 * time.Second);
                     OpDelete "q";
                     OpTick [("e", 120 * time.Second); ("p", 120 * time.Second)];
                     OpGet "e" (150 * time.Second);
                     OpDelete "p"] fresh))
    = Legacy.run (W:=Log) [OpSet "p" "one" (100 * time.Second);
                  OpSetEx "e" "two" (40 * time.Second) (100 * time.Second);
                  OpDelete "q";
                  OpTick [("e", 120 * time.Second); ("p", 120 * time.Second)];
                  OpGet "e" (150 * time.Second);
                  OpDelete "p"] (data (heap fresh))
  ∧ world (run [OpSet "p" "one" (100 * time.Second);
                OpSetEx "e" "two" (40 * time.Second) (100 * time.Second);
                OpDelete "q";
                OpTick [("e", 120 * time.Second); ("p", 120 * time.Second)];
                OpGet "e" (150 * time.Second);
                OpDelete "p"] fresh) = world fresh
  ∧ (Get "e" (160 * time.Second)
       (run [OpSet "p" "one" (100 * time.Second);
             OpSetEx "e" "two" (40 * time.Second) (100 * time.Second);
             OpDelete "q";
             OpTick [("e", 120 * time.Second); ("p", 120 * time.Second)];
             OpGet "e" (150 * time.Second);
             OpDelete "p"] fresh)).1
    = (Legacy.Get "e" (160 * time.Second)
         (Legacy.run (W:=Log) [OpSet "p" "one" (100 * time.Second);
                      OpSetEx "e" "two" (40 * time.Second) (100 * time.Second);
                      OpDelete "q";
                      OpTick [("e", 120 * time.Second); ("p", 120 * time.Second)];
                      OpGet "e" (150 * time.Second);
                      OpDelete "p"] (data (heap fresh)))).1
  ∧ data (heap (Get "e" (160 * time.Second)
                  (run [OpSet "p" "one" (100 * time.Second);
                        OpSetEx "e" "two" (40 * time.Second) (100 * time.Second);
                        OpDelete "q";
                        OpTick [("e", 120 * time.Second); ("p", 120 * time.Second)];
                        OpGet "e" (150 * time.Second);
                        OpDelete "p"] fresh)).2)
    = (Legacy.Get "e" (160 * time.Second)
         (Legacy.run (W:=Log) [OpSet "p" "one" (100 * time.Second);
                      OpSetEx "e" "two" (40 * time.Second) (100 * time.Second);
                      OpDelete "q";
                      OpTick [("e", 120 * time.Second); ("p", 120 * time.Second)];
                      OpGet "e" (150 * time.Second);
                      OpDelete "p"] (data (heap fresh)))).2
  ∧ world (Get "e" (160 * time.Second)
             (run [OpSet "p" "one" (100 * time.Second);
                   OpSetEx "e" "two" (40 * time.Second) (100 * time.Second);
                   OpDelete "q";
                   OpTick [("e", 120 * time.Second); ("p", 120 * time.Second)];
                   OpGet "e" (150 * time.Second);
                   OpDelete "p"] fresh)).2 = world fresh.
Proof.
  split; [split; [done|repeat constructor]|].
  apply (without_SetHook_as_before_hooks
           [OpSet "p" "one" (100 * time.Second);
            OpSetEx "e" "two" (40 * time.Second) (100 * time.Second);
            OpDelete "q";
            OpTick [("e", 120 * time.Second); ("p", 120 * time.Second)];
            OpGet "e" (150 * time.Second);
            OpDelete "p"] fresh "e" (160 * time.Second)); [done|repeat constructor].
Defined.
End MoreInstances.
